(** * qTox [Style]: stylesheet templates, theme colours and their caches

    A shallow embedding of [src/widget/style.cpp].  The file-scope statics of
    the translation unit ([palette], [dict], [stylesheetsCache],
    [existingImagesCache]) become one [State] record that every operation
    threads explicitly; [qWarning] output is kept as a list of [Warning]s.
    What the code asks of Qt and of the file system is kept apart:
    - the file system of one call is a [World];
    - [QColor::darker], [QColor::lighter] and the platform's default font are
      the fields of a [Platform].
    A [QString] is a [string]; the token names and both patterns are ASCII,
    and every other character is neither a word character nor white space
    for them. *)

From Stdlib Require Import ZArith String Ascii.
From stdpp Require Import gmap strings list pretty.

Local Open Scope string_scope.

(** ** QString: the operations of the source, on [string] *)

Module QString.

(** PCRE's [\w] without the Unicode-properties option: [[A-Za-z0-9_]]. *)
Definition is_word (c : ascii) : bool :=
  let n := N_of_ascii c in
  ((48 <=? n) && (n <=? 57) || (65 <=? n) && (n <=? 90)
   || (97 <=? n) && (n <=? 122) || (n =? 95))%N.

(** PCRE's [\s]: space, TAB, LF, VT, FF, CR. *)
Definition is_space (c : ascii) : bool :=
  let n := N_of_ascii c in
  ((n =? 32) || (9 <=? n) && (n <=? 13))%N.

Fixpoint drop (n : nat) (s : string) : string :=
  match n, s with
  | S k, String _ r => drop k r
  | _, _ => s
  end.

Definition head (s : string) : option ascii :=
  match s with
  | String c _ => Some c
  | EmptyString => None
  end.

Fixpoint last (s : string) : option ascii :=
  match s with
  | EmptyString => None
  | String c EmptyString => Some c
  | String _ r => last r
  end.

(** [QString::chop(1)]: the string without its last character. *)
Fixpoint chop1 (s : string) : string :=
  match s with
  | EmptyString => EmptyString
  | String _ EmptyString => EmptyString
  | String c r => String c (chop1 r)
  end.

(** One left-to-right pass over [s]: wherever [hit] holds of the text that
    starts at the current position, [len] characters are replaced by [after]
    and the scan goes on behind them.  [skip] counts the characters of a
    match that are still to be passed over.  Both [QString::replace]
    overloads used by the source work on the matches of the string as it was
    before the call, which is what this pass does. *)
Fixpoint replace_hits (hit : string -> bool) (len : nat) (after : string)
    (skip : nat) (s : string) : string :=
  match s with
  | EmptyString => EmptyString
  | String c r =>
      match skip with
      | S k => replace_hits hit len after k r
      | O =>
          if hit s then after +:+ replace_hits hit len after (len - 1) r
          else String c (replace_hits hit len after 0 r)
      end
  end.

(** [QString::replace(const QString &before, const QString &after)]:
    every occurrence of the non-empty [before] becomes [after]. *)
Definition replace (before after s : string) : string :=
  replace_hits (String.prefix before) (String.length before) after 0 s.

(** [QString::remove(const QString &)]: every occurrence is deleted. *)
Definition remove (before s : string) : string := replace before "" s.

(** Whether a character (or the end of the subject) counts as a word
    character for [\b]. *)
Definition is_word_opt (c : option ascii) : bool :=
  match c with
  | Some a => is_word a
  | None => false
  end.

(** The regular expression [key\b] for a literal, non-empty [key], tried at
    the head of [s]: [key] is a prefix and exactly one of the last character
    of [key] and the character behind it is a word character. *)
Definition token_at (key s : string) : bool :=
  String.prefix key s
  && xorb (is_word_opt (last key))
          (is_word_opt (head (drop (String.length key) s))).

(** [qss.replace(QRegularExpression(key % "\\b"), after)].  The pattern has
    no capture group, so Qt inserts [after] literally. *)
Definition replace_token (key after s : string) : string :=
  replace_hits (token_at key) (String.length key) after 0 s.

(** Whether [key\b] matches somewhere in [s]. *)
Fixpoint token_occurs (key s : string) : bool :=
  token_at key s
  || match s with
     | EmptyString => false
     | String _ r => token_occurs key r
     end.

Definition imagePrefix : string := "@getImagePath(".

(** The longest run of [[^)\s]] at the head of [s], and what follows it. *)
Fixpoint span_arg (s : string) : string * string :=
  match s with
  | EmptyString => (EmptyString, EmptyString)
  | String c r =>
      if Ascii.eqb c ")" || is_space c then (EmptyString, s)
      else let (a, rest) := span_arg r in (String c a, rest)
  end.

(** The regular expression [@getImagePath\([^)\s]*\)] tried at the head of
    [s]; the result is [captured(0)].  The class excludes [)], so the greedy
    star can only be followed by [)] at the end of its longest run. *)
Definition image_at (s : string) : option string :=
  if String.prefix imagePrefix s then
    let (arg, rest) := span_arg (drop (String.length imagePrefix) s) in
    match rest with
    | String ")" _ => Some (imagePrefix +:+ arg +:+ ")")
    | _ => None
    end
  else None.

(** [re.globalMatch(s)]: the matches of the image pattern, left to right
    and without overlap. *)
Fixpoint globalMatch (skip : nat) (s : string) : list string :=
  match s with
  | EmptyString => []
  | String _ r =>
      match skip with
      | S k => globalMatch k r
      | O =>
          match image_at s with
          | Some phrase => phrase :: globalMatch (String.length phrase - 1) r
          | None => globalMatch 0 r
          end
      end
  end.

End QString.

(** ** QColor and QFont *)

Record QColor := mkColor { isValid : bool; red : Z; green : Z; blue : Z }.

Module Color.

(** [QColor()]: the invalid colour. *)
Definition invalid : QColor := mkColor false 0 0 0.

Definition hex_value (c : ascii) : option Z :=
  let n := Z.of_N (N_of_ascii c) in
  if ((48 <=? n) && (n <=? 57))%Z then Some (n - 48)%Z
  else if ((97 <=? n) && (n <=? 102))%Z then Some (n - 87)%Z
  else if ((65 <=? n) && (n <=? 70))%Z then Some (n - 55)%Z
  else None.

(** [QColor(const QString &)] for the one form the source writes,
    [#rrggbb]; any other text gives the invalid colour here. *)
Definition fromName (s : string) : QColor :=
  match s with
  | String "#" (String a (String b (String c (String d (String e (String f EmptyString)))))) =>
      match hex_value a, hex_value b, hex_value c, hex_value d, hex_value e, hex_value f with
      | Some a, Some b, Some c, Some d, Some e, Some f =>
          mkColor true (16 * a + b) (16 * c + d) (16 * e + f)
      | _, _, _, _, _, _ => invalid
      end
  | _ => invalid
  end.

Definition hex_digit (n : Z) : ascii :=
  match String.get (Z.to_nat n) "0123456789abcdef" with
  | Some c => c
  | None => "0"%char
  end.

Definition hex2 (v : Z) : string :=
  String (hex_digit (v / 16)) (String (hex_digit (v mod 16)) EmptyString).

(** [QColor::name()]: [#rrggbb] in lower-case hexadecimal. *)
Definition name (c : QColor) : string :=
  "#" +:+ hex2 (red c) +:+ hex2 (green c) +:+ hex2 (blue c).

End Color.

(** The attributes of a [QFont] that the source sets or reads. *)
Record QFont := mkFont { family : string; pixelSize : Z; weight : Z }.

Global Instance QFont_eq_dec : EqDecision QFont.
Proof. solve_decision. Defined.

Global Instance QFont_countable : Countable QFont :=
  inj_countable'
    (fun f => (family f, pixelSize f, weight f))
    (fun t => mkFont t.1.1 t.1.2 t.2)
    (fun f => match f with mkFont _ _ _ => eq_refl end).

(** [QFont::Light], [QFont::Normal] and [QFont::Bold] of Qt 5. *)
Definition Light : Z := 25.
Definition Normal : Z := 50.
Definition Bold : Z := 75.

(** Modelled from the spec: the enumeration [Style::ColorPalette] of
    [style.h], which is not part of the sources; its order is that of the
    [palette] array and of the spec's data model (static colours, then the
    four theme accent slots). *)
Inductive ColorPalette :=
  | Green | Yellow | Red | Black | DarkGrey | MediumGrey | MediumGreyLight
  | LightGrey | White | Orange
  | ThemeDark | ThemeMediumDark | ThemeMedium | ThemeLight.

Global Instance ColorPalette_eq_dec : EqDecision ColorPalette.
Proof. solve_decision. Defined.

Definition ColorPalette_index (e : ColorPalette) : nat :=
  match e with
  | Green => 0 | Yellow => 1 | Red => 2 | Black => 3 | DarkGrey => 4
  | MediumGrey => 5 | MediumGreyLight => 6 | LightGrey => 7 | White => 8
  | Orange => 9 | ThemeDark => 10 | ThemeMediumDark => 11
  | ThemeMedium => 12 | ThemeLight => 13
  end%nat.

(** Modelled from the spec: the enumeration [Style::Font] of [style.h], in
    the order of the source's documentation comment and of the [fonts]
    array. *)
Inductive Font :=
  | ExtraBig | Big | BigBold | Medium | MediumBold | Small | SmallLight.

Definition Font_index (f : Font) : nat :=
  match f with
  | ExtraBig => 0 | Big => 1 | BigBold => 2 | Medium => 3 | MediumBold => 4
  | Small => 5 | SmallLight => 6
  end%nat.

(** ** QMap<QString, QString>: entries in ascending key order *)

Module QMap.

Fixpoint insert (k v : string) (m : list (string * string)) : list (string * string) :=
  match m with
  | [] => [(k, v)]
  | (k', v') :: r =>
      match String.compare k k' with
      | Lt => (k, v) :: m
      | Eq => (k, v) :: r
      | Gt => (k', v') :: insert k v r
      end
  end.

(** Construction from an initializer list. *)
Definition of_list (l : list (string * string)) : list (string * string) :=
  fold_left (fun m kv => insert kv.1 kv.2 m) l [].

Definition keys (m : list (string * string)) : list string := map fst m.

(** [m[k]] read for a key that may be absent (the default is the empty
    string). *)
Fixpoint value (k : string) (m : list (string * string)) : string :=
  match m with
  | [] => EmptyString
  | (k', v) :: r => if String.eqb k k' then v else value k r
  end.

Definition isEmpty (m : list (string * string)) : bool :=
  match m with
  | [] => true
  | _ => false
  end.

End QMap.

(** ** The environment of a call and the state of the module *)

(** What one call sees of the file system. *)
Record World := mkWorld {
  (** [QStandardPaths::locate(AppDataLocation, dir, LocateDirectory)]:
      the directory found, or the empty string. *)
  locate : string -> string;
  (** [QDir::separator()]. *)
  separator : string;
  (** [QFile::open(ReadOnly | Text)] followed by [readAll()]; [None] when
      the file cannot be opened. *)
  open_text : string -> option string;
  (** [QFileInfo::exists]. *)
  file_exists : string -> bool
}.

(** The two [qWarning] lines of the source, with the path they print. *)
Inductive Warning :=
  | FailedToOpenFile (path : string)
  | FailedToOpenDefaultFile (path : string).

(** The [palette] array is read and written at the ordinals of
    [ColorPalette] only, so it is kept as the colour of each entry. *)
Record State := mkState {
  palette : ColorPalette -> QColor;
  dict : list (string * string);
  stylesheetsCache : gmap (string * QFont) string;
  existingImagesCache : list string;
  warnings : list Warning
}.

Definition set_palette (p : ColorPalette -> QColor) (s : State) : State :=
  mkState p (dict s) (stylesheetsCache s) (existingImagesCache s) (warnings s).

Definition set_dict (d : list (string * string)) (s : State) : State :=
  mkState (palette s) d (stylesheetsCache s) (existingImagesCache s) (warnings s).

Definition set_stylesheetsCache (c : gmap (string * QFont) string) (s : State) : State :=
  mkState (palette s) (dict s) c (existingImagesCache s) (warnings s).

Definition set_existingImagesCache (l : list string) (s : State) : State :=
  mkState (palette s) (dict s) (stylesheetsCache s) l (warnings s).

(** [qWarning() << ...]. *)
Definition qWarning (x : Warning) (s : State) : State :=
  mkState (palette s) (dict s) (stylesheetsCache s) (existingImagesCache s)
          (warnings s ++ [x]).

(** [palette[e] = c]. *)
Definition assign (e : ColorPalette) (c : QColor) (p : ColorPalette -> QColor)
    : ColorPalette -> QColor :=
  fun e' => if decide (e' = e) then c else p e'.

(** [std::map::insert]: an existing entry is kept. *)
Definition map_insert (k : string * QFont) (v : string)
    (m : gmap (string * QFont) string) : gmap (string * QFont) string :=
  match m !! k with
  | Some _ => m
  | None => <[k := v]> m
  end.

Definition ThemeSubFolder : string := "themes/".
Definition BuiltinThemePath : string := ":themes/default/".

Definition dquote : string := String (ascii_of_N 34) EmptyString.

(** [QString::arg(int)]: the decimal numeral. *)
Definition number (z : Z) : string := pretty z.


(** ** The operations of [Style] *)

(** What the module takes from Qt and from the platform. *)
Class Platform := {
  (** [QColor::darker(int)] and [QColor::lighter(int)]. *)
  darker : Z -> QColor -> QColor;
  lighter : Z -> QColor -> QColor;
  (** A default-constructed [QFont]. *)
  defaultFont : QFont;
  (** [QFontInfo(font).pixelSize()]. *)
  fontInfoPixelSize : QFont -> Z
}.

Section Style.

Context `{Qt : Platform}.

Definition appFont (px w : Z) : QFont :=
  mkFont (family defaultFont) px w.

(** The three arguments are a number, a number and the family, in this
    order, so the chained [arg] calls amount to a concatenation. *)
Definition qssifyFont (font : QFont) : string :=
  number (weight font * 8) +:+ " " +:+ number (pixelSize font) +:+ "px "
  +:+ dquote +:+ family font +:+ dquote.

Definition palette_init : list QColor :=
  [ Color.fromName "#6bc260"; Color.fromName "#cebf44"; Color.fromName "#c84e4e";
    Color.fromName "#000000"; Color.fromName "#1c1c1c";
    Color.fromName "#414141"; lighter 120 (Color.fromName "#414141");
    Color.fromName "#d1d1d1"; Color.fromName "#ffffff";
    Color.fromName "#ff7700";
    (* Theme colors *)
    Color.fromName "#1c1c1c"; Color.fromName "#2a2a2a"; Color.fromName "#414141";
    Color.fromName "#4e4e4e" ].

(** The statics of the translation unit before any call. *)
Definition initial : State :=
  {| palette := fun e => nth (ColorPalette_index e) palette_init Color.invalid;
     dict := [];
     stylesheetsCache := ∅;
     existingImagesCache := [];
     warnings := [] |}.

Definition getThemeName : string := "default".

Definition getThemeFolder (w : World) : string :=
  let themeName := getThemeName in
  let themeFolder := ThemeSubFolder +:+ themeName in
  let fullPath := locate w themeFolder in
  (* No themes available, fallback to builtin *)
  if String.eqb fullPath "" then BuiltinThemePath
  else fullPath +:+ separator w.

Definition themeColorColors : list QColor :=
  [ Color.invalid; Color.fromName "#004aa4"; Color.fromName "#97ba00";
    Color.fromName "#c23716"; Color.fromName "#4617b5" ].

Definition getImagePath (w : World) (filename : string) (s : State) : string * State :=
  let fullPath := getThemeFolder w +:+ filename in
  (* search for image in cache *)
  if decide (fullPath ∈ existingImagesCache s) then (fullPath, s)
  else
    (* if not in cache *)
    if file_exists w fullPath then
      (fullPath, set_existingImagesCache (existingImagesCache s ++ [fullPath]) s)
    else
      let s := qWarning (FailedToOpenFile fullPath) s in
      let fullPath := BuiltinThemePath +:+ filename in
      if file_exists w fullPath then (fullPath, s)
      else (EmptyString, qWarning (FailedToOpenDefaultFile fullPath) s).

Definition getColor (entry : ColorPalette) (s : State) : QColor :=
  palette s entry.

Definition getFont (font : Font) : QFont :=
  let defSize := fontInfoPixelSize defaultFont in
  let fonts :=
    [ appFont (defSize + 3) Bold;   (* extra big *)
      appFont (defSize + 1) Normal; (* big *)
      appFont (defSize + 1) Bold;   (* big bold *)
      appFont defSize Normal;       (* medium *)
      appFont defSize Bold;         (* medium bold *)
      appFont (defSize - 1) Normal; (* small *)
      appFont (defSize - 1) Light   (* small light *) ] in
  nth (Font_index font) fonts defaultFont.

(** The initializer of [dict] in [resolve].  The [@baseFont] text is the
    concatenation that the two [arg] calls produce for a family without
    place markers. *)
Definition dict_init (baseFont : QFont) (s : State) : list (string * string) :=
  QMap.of_list
    [ (* colors *)
      ("@green", Color.name (getColor Green s));
      ("@yellow", Color.name (getColor Yellow s));
      ("@red", Color.name (getColor Red s));
      ("@black", Color.name (getColor Black s));
      ("@darkGrey", Color.name (getColor DarkGrey s));
      ("@mediumGrey", Color.name (getColor MediumGrey s));
      ("@mediumGreyLight", Color.name (getColor MediumGreyLight s));
      ("@lightGrey", Color.name (getColor LightGrey s));
      ("@white", Color.name (getColor White s));
      ("@orange", Color.name (getColor Orange s));
      ("@themeDark", Color.name (getColor ThemeDark s));
      ("@themeMediumDark", Color.name (getColor ThemeMediumDark s));
      ("@themeMedium", Color.name (getColor ThemeMedium s));
      ("@themeLight", Color.name (getColor ThemeLight s));
      (* fonts *)
      ("@baseFont",
       "'" +:+ family baseFont +:+ "' " +:+ number (fontInfoPixelSize baseFont) +:+ "px");
      ("@extraBig", qssifyFont (getFont ExtraBig));
      ("@big", qssifyFont (getFont Big));
      ("@bigBold", qssifyFont (getFont BigBold));
      ("@medium", qssifyFont (getFont Medium));
      ("@mediumBold", qssifyFont (getFont MediumBold));
      ("@small", qssifyFont (getFont Small));
      ("@smallLight", qssifyFont (getFont SmallLight)) ].

(** [for (const QString& key : dict.keys()) qss.replace(key\b, dict[key])]. *)
Definition substitute (d : list (string * string)) (qss : string) : string :=
  fold_left (fun q key => QString.replace_token key (QMap.value key d) q)
            (QMap.keys d) qss.

(** One turn of the [while (i.hasNext())] loop of [resolve], for the match
    [phrase].  [fullPath] is the path of the template that was opened: it is
    what the source looks up in [existingImagesCache]. *)
Definition resolveImage (w : World) (fullPath : string)
    (acc : string * State) (phrase : string) : string * State :=
  let (qss, s) := acc in
  let path := QString.chop1 (QString.remove QString.imagePrefix phrase) in
  let fullImagePath := getThemeFolder w +:+ path in
  let (fullImagePath, s) :=
    (* image not in cache *)
    if decide (fullPath ∈ existingImagesCache s) then (fullImagePath, s)
    else if file_exists w fullImagePath then
      (fullImagePath,
       set_existingImagesCache (existingImagesCache s ++ [fullImagePath]) s)
    else
      (BuiltinThemePath +:+ path, qWarning (FailedToOpenFile fullImagePath) s) in
  (QString.replace phrase fullImagePath qss, s).

(** [resolve] from the point where the template text [qss] has been read.
    The match iterator runs over the text as it is after the token pass. *)
Definition resolveText (w : World) (fullPath qss : string) (baseFont : QFont)
    (s : State) : string * State :=
  let s :=
    if QMap.isEmpty (dict s) then set_dict (dict_init baseFont s) s else s in
  let qss := substitute (dict s) qss in
  (* @getImagePath() function *)
  fold_left (resolveImage w fullPath) (QString.globalMatch 0 qss) (qss, s).

Definition resolve (w : World) (filename : string) (baseFont : QFont)
    (s : State) : string * State :=
  let themePath := getThemeFolder w in
  let fullPath := themePath +:+ filename in
  match open_text w fullPath with
  | Some qss => resolveText w fullPath qss baseFont s
  | None =>
      let s := qWarning (FailedToOpenFile fullPath) s in
      let fullPath := BuiltinThemePath in
      match open_text w fullPath with
      | Some qss => resolveText w fullPath qss baseFont s
      | None => (EmptyString, qWarning (FailedToOpenDefaultFile fullPath) s)
      end
  end.

Definition getStylesheet (w : World) (filename : string) (baseFont : QFont)
    (s : State) : string * State :=
  let fullPath := getThemeFolder w +:+ filename in
  let cacheKey := (fullPath, baseFont) in
  match stylesheetsCache s !! cacheKey with
  | Some sheet =>
      (* cache hit *)
      (sheet, s)
  | None =>
      (* cache miss, new styleSheet, read it from file and add to cache *)
      let (newStylesheet, s) := resolve w filename baseFont s in
      (newStylesheet,
       set_stylesheetsCache (map_insert cacheKey newStylesheet (stylesheetsCache s)) s)
  end.

(** [Style::setThemeColor(const QColor&)]. *)
Definition setThemeColor (color : QColor) (s : State) : State :=
  let p := palette s in
  let p :=
    if negb (isValid color) then
      (* Reset to default *)
      assign ThemeLight (Color.fromName "#4e4e4e")
        (assign ThemeMedium (Color.fromName "#414141")
          (assign ThemeMediumDark (Color.fromName "#2a2a2a")
            (assign ThemeDark (Color.fromName "#1c1c1c") p)))
    else
      assign ThemeLight (lighter 110 color)
        (assign ThemeMedium (darker 120 color)
          (assign ThemeMediumDark (darker 135 color)
            (assign ThemeDark (darker 155 color) p))) in
  let s := set_palette p s in
  let d := dict s in
  let d := QMap.insert "@themeDark" (Color.name (getColor ThemeDark s)) d in
  let d := QMap.insert "@themeMediumDark" (Color.name (getColor ThemeMediumDark s)) d in
  let d := QMap.insert "@themeMedium" (Color.name (getColor ThemeMedium s)) d in
  let d := QMap.insert "@themeLight" (Color.name (getColor ThemeLight s)) d in
  set_dict d s.

(** [Style::setThemeColor(int)]. *)
Definition setThemeColor_int (color : Z) (s : State) : State :=
  (* clear stylesheet cache which includes color info *)
  let s := set_stylesheetsCache ∅ s in
  if ((color <? 0) || (color >=? Z.of_nat (length themeColorColors)))%Z then
    setThemeColor Color.invalid s
  else
    setThemeColor (nth (Z.to_nat color) themeColorColors Color.invalid) s.

(** *** Calls and runs *)

(** A call of one of the public operations. *)
Inductive Call :=
  | CallGetStylesheet (filename : string) (baseFont : QFont)
  | CallResolve (filename : string) (baseFont : QFont)
  | CallGetImagePath (filename : string)
  | CallSetThemeColorInt (color : Z)
  | CallSetThemeColor (color : QColor).

(** The state after a call made while the file system is [w]. *)
Definition exec (w : World) (c : Call) (s : State) : State :=
  match c with
  | CallGetStylesheet f font => (getStylesheet w f font s).2
  | CallResolve f font => (resolve w f font s).2
  | CallGetImagePath f => (getImagePath w f s).2
  | CallSetThemeColorInt i => setThemeColor_int i s
  | CallSetThemeColor c => setThemeColor c s
  end.

(** A run: calls in order, each with the file system of its moment. *)
Definition run (calls : list (World * Call)) (s : State) : State :=
  fold_left (fun s wc => exec wc.1 wc.2 s) calls s.

(** *** Notions used to state the properties *)

(** The calls that are not [setThemeColor(int)]. *)
Definition keeps_stylesheets (c : Call) : Prop :=
  match c with
  | CallSetThemeColorInt _ => False
  | _ => True
  end.

Definition is_getImagePath (c : Call) : Prop :=
  match c with
  | CallGetImagePath _ => True
  | _ => False
  end.

Definition is_setThemeColor (c : Call) : Prop :=
  match c with
  | CallSetThemeColorInt _ | CallSetThemeColor _ => True
  | _ => False
  end.

(** The four accent slots of the palette. *)
Definition accents (s : State) : QColor * QColor * QColor * QColor :=
  (getColor ThemeDark s, getColor ThemeMediumDark s,
   getColor ThemeMedium s, getColor ThemeLight s).

(** The token names of the initializer of [dict], in its order. *)
Definition tokens : list string :=
  [ "@green"; "@yellow"; "@red"; "@black"; "@darkGrey"; "@mediumGrey";
    "@mediumGreyLight"; "@lightGrey"; "@white"; "@orange"; "@themeDark";
    "@themeMediumDark"; "@themeMedium"; "@themeLight"; "@baseFont";
    "@extraBig"; "@big"; "@bigBold"; "@medium"; "@mediumBold"; "@small";
    "@smallLight" ].

Definition accent_tokens : list string :=
  [ "@themeDark"; "@themeLight"; "@themeMedium"; "@themeMediumDark" ].

(** A dictionary that holds the four accent entries for the palette [p]
    and nothing else. *)
Definition accent_dict (p : ColorPalette -> QColor) : list (string * string) :=
  [ ("@themeDark", Color.name (p ThemeDark));
    ("@themeLight", Color.name (p ThemeLight));
    ("@themeMedium", Color.name (p ThemeMedium));
    ("@themeMediumDark", Color.name (p ThemeMediumDark)) ].

(** The keys of the dictionary are token names of the initializer. *)
Definition known_keys (s : State) : Prop :=
  forall k, In k (QMap.keys (dict s)) -> In k tokens.

End Style.

(** [Style::getThemeColorNames]; [QObject::tr] is taken without a
    translation installed. *)
Definition getThemeColorNames : list string :=
  [ "Default"; "Blue"; "Olive"; "Red"; "Violet" ].

(** *** Further notions used to state properties *)

(** The entries of the palette that [setThemeColor] assigns. *)
Definition is_accent (e : ColorPalette) : bool :=
  match e with
  | ThemeDark | ThemeMediumDark | ThemeMedium | ThemeLight => true
  | _ => false
  end.

(** The token names in the order of [QMap::keys()]. *)
Definition sorted_tokens : list string :=
  [ "@baseFont"; "@big"; "@bigBold"; "@black"; "@darkGrey"; "@extraBig";
    "@green"; "@lightGrey"; "@medium"; "@mediumBold"; "@mediumGrey";
    "@mediumGreyLight"; "@orange"; "@red"; "@small"; "@smallLight";
    "@themeDark"; "@themeLight"; "@themeMedium"; "@themeMediumDark";
    "@white"; "@yellow" ].

(** What [QMap.insert] does to the list of keys. *)
Fixpoint insert_key (k : string) (ks : list string) : list string :=
  match ks with
  | [] => [k]
  | k' :: r =>
      match String.compare k k' with
      | Lt => k :: ks
      | Eq => k :: r
      | Gt => k' :: insert_key k r
      end
  end.

(** The four accent entries of the dictionary name the accent colours of
    the palette. *)
Definition accents_in_step (s : State) : Prop :=
  QMap.value "@themeDark" (dict s) = Color.name (getColor ThemeDark s)
  /\ QMap.value "@themeMediumDark" (dict s) = Color.name (getColor ThemeMediumDark s)
  /\ QMap.value "@themeMedium" (dict s) = Color.name (getColor ThemeMedium s)
  /\ QMap.value "@themeLight" (dict s) = Color.name (getColor ThemeLight s).

(** The three key sets that the dictionary can have. *)
Definition keys_shape (s : State) : Prop :=
  QMap.keys (dict s) = []
  \/ QMap.keys (dict s) = accent_tokens
  \/ QMap.keys (dict s) = sorted_tokens.

(** Whether [p] occurs in [s]. *)
Fixpoint occurs (p s : string) : bool :=
  String.prefix p s
  || match s with
     | EmptyString => false
     | String _ r => occurs p r
     end.

(** Whether every character of [s] is in the class [[^)\s]] of the image
    pattern. *)
Fixpoint image_arg (s : string) : bool :=
  match s with
  | EmptyString => true
  | String c r => negb (Ascii.eqb c ")" || QString.is_space c) && image_arg r
  end.

(** Whether [s] has no closing parenthesis. *)
Fixpoint no_rparen (s : string) : bool :=
  match s with
  | EmptyString => true
  | String c r => negb (Ascii.eqb c ")") && no_rparen r
  end.

(** ** A platform and small file systems for the closed examples *)

Module Sample.

(** Every channel multiplied by [num / den], capped at 255. *)
Definition scale (num den : Z) (c : QColor) : QColor :=
  mkColor (isValid c)
          (Z.min 255 (red c * num / den))
          (Z.min 255 (green c * num / den))
          (Z.min 255 (blue c * num / den)).

(** A platform to run the operations on.  The theorems of this file hold
    for every [Platform]; this one only serves their closed instances. *)
Definition qt : Platform :=
  {| darker := fun f c => scale 100 f c;
     lighter := fun f c => scale f 100 c;
     defaultFont := mkFont "Sans" (-1) Normal;
     fontInfoPixelSize := fun _ => 12%Z |}.

Definition font : QFont := mkFont "Sans" 12 Normal.

(** Where the user's theme is found, when there is one. *)
Definition userTheme : string := "/home/user/.local/share/qTox/themes/default".

Fixpoint content (files : list (string * string)) (p : string) : option string :=
  match files with
  | [] => None
  | (q, text) :: r => if String.eqb p q then Some text else content r p
  end.

(** A file system that holds exactly [files] (path and text); the user's
    theme directory is found when [installed] is set. *)
Definition fs (installed : bool) (files : list (string * string)) : World :=
  {| locate := fun _ => if installed then userTheme else EmptyString;
     separator := "/";
     open_text := content files;
     file_exists := fun p => bool_decide (is_Some (content files p)) |}.

(** The path of a file of the user's theme. *)
Definition inTheme (name : string) : string := userTheme +:+ "/" +:+ name.

Definition blue : QColor := Color.fromName "#004aa4".

(** A user theme whose [chat.css] refers to an image that it lacks. *)
Definition chatWorld : World :=
  fs true [ (inTheme "chat.css", "QPushButton { image: url(@getImagePath(missing.png)); }") ].

(** A user theme with one template that uses an accent token and tokens
    of the other kinds. *)
Definition mainWorld : World :=
  fs true [ (inTheme "main.css", "color: @green; border: @themeDark; font: @baseFont;") ].

(** The same theme after [main.css] has been edited. *)
Definition mainWorld' : World :=
  fs true [ (inTheme "main.css", "color: @red;") ].

(** A user theme without any file, and one where [a.png] exists; a system
    where [a.png] exists in the built-in theme only. *)
Definition emptyWorld : World := fs true [].
Definition imageWorld : World := fs true [ (inTheme "a.png", "") ].
Definition builtinImageWorld : World := fs true [ (":themes/default/a.png", "") ].

(** A user theme whose [icons.css] refers to an image that it has. *)
Definition iconWorld : World :=
  fs true [ (inTheme "icons.css", "image: url(@getImagePath(a.png));");
            (inTheme "a.png", "") ].

(** A theme whose template has no token and no image reference. *)
Definition plainWorld : World :=
  fs true [ (inTheme "plain.css", "QWidget { margin: 0; } /* @greenish, @getImagePath(a b) */") ].

(** A run that recolours by index and by colour and resolves in between. *)
Definition busy : list (World * Call) :=
  [ (mainWorld, CallSetThemeColorInt 1);
    (mainWorld, CallGetStylesheet "main.css" font);
    (iconWorld, CallResolve "icons.css" font);
    (emptyWorld, CallGetImagePath "a.png");
    (mainWorld, CallSetThemeColor blue) ].

End Sample.

(** * Properties *)

(** ** Text replacement *)

Lemma replace_hits_no_hit (hit : string -> bool) (len : nat) (after s : string) :
  (forall n, hit (QString.drop n s) = false) ->
  QString.replace_hits hit len after 0 s = s.
Proof.
  induction s as [|c r IH]; intros Hno; [reflexivity|].
  pose proof (Hno 0%nat) as H0. simpl in H0 |- *. rewrite H0. f_equal.
  apply IH. intros n. exact (Hno (S n)).
Qed.

Lemma token_occurs_drop (key s : string) :
  QString.token_occurs key s = false ->
  forall n, QString.token_at key (QString.drop n s) = false.
Proof.
  induction s as [|c r IH]; intros Hocc n.
  - destruct n; simpl in *; apply orb_false_iff in Hocc; tauto.
  - simpl in Hocc. apply orb_false_iff in Hocc as [Hhd Htl].
    destruct n as [|n]; [exact Hhd | exact (IH Htl n)].
Qed.

Lemma replace_token_absent (key after s : string) :
  QString.token_occurs key s = false ->
  QString.replace_token key after s = s.
Proof.
  intros Hocc. apply replace_hits_no_hit, token_occurs_drop, Hocc.
Qed.

(** ** The placeholder dictionary *)

Lemma QMap_insert_keys (k v k' : string) (m : list (string * string)) :
  In k' (QMap.keys (QMap.insert k v m)) -> k' = k \/ In k' (QMap.keys m).
Proof.
  induction m as [|[k0 v0] r IH]; simpl.
  - intuition congruence.
  - destruct (String.compare k k0) eqn:E; simpl; intros Hin.
    + intuition congruence.
    + intuition congruence.
    + destruct Hin as [->|Hin]; [tauto|]. destruct (IH Hin); tauto.
Qed.

Lemma QMap_of_list_keys (l : list (string * string)) (k : string) :
  In k (QMap.keys (QMap.of_list l)) -> In k (map fst l).
Proof.
  unfold QMap.of_list.
  assert (G : forall m, In k (QMap.keys (fold_left (fun m kv => QMap.insert kv.1 kv.2 m) l m)) ->
              In k (map fst l) \/ In k (QMap.keys m)).
  { induction l as [|[k0 v0] r IH]; simpl; intros m Hin; [tauto|].
    destruct (IH _ Hin) as [H|H]; [tauto|].
    destruct (QMap_insert_keys _ _ _ _ H); subst; tauto. }
  intros Hin. destruct (G [] Hin) as [H|[]]. exact H.
Qed.

Lemma String_compare_refl (k : string) : String.compare k k = Eq.
Proof.
  pose proof (String.compare_antisym k k) as H.
  destruct (String.compare k k); simpl in H; congruence.
Qed.

Lemma QMap_value_insert_eq (k v : string) (m : list (string * string)) :
  QMap.value k (QMap.insert k v m) = v.
Proof.
  induction m as [|[k0 v0] r IH]; simpl.
  - rewrite String.eqb_refl. reflexivity.
  - destruct (String.compare k k0) eqn:E; simpl.
    + rewrite String.eqb_refl. reflexivity.
    + rewrite String.eqb_refl. reflexivity.
    + destruct (String.eqb_spec k k0) as [->|_]; [|exact IH].
      rewrite String_compare_refl in E. discriminate.
Qed.

Lemma QMap_value_insert_ne (k k' v : string) (m : list (string * string)) :
  k <> k' -> QMap.value k (QMap.insert k' v m) = QMap.value k m.
Proof.
  intros Hne. apply String.eqb_neq in Hne as Hb.
  induction m as [|[k0 v0] r IH]; simpl.
  - rewrite Hb. reflexivity.
  - destruct (String.compare k' k0) eqn:E; simpl.
    + apply String.compare_eq_iff in E. subst k0. rewrite !Hb. reflexivity.
    + rewrite Hb. reflexivity.
    + rewrite IH. reflexivity.
Qed.

Section Facts.

Context `{Qt : Platform}.

Lemma substitute_absent (d : list (string * string)) (qss : string) :
  Forall (fun key => QString.token_occurs key qss = false) (QMap.keys d) ->
  substitute d qss = qss.
Proof.
  unfold substitute.
  induction (QMap.keys d) as [|k ks IH]; intros Hall; [reflexivity|].
  inversion Hall as [|? ? Hk Hks]; subst. simpl.
  rewrite (replace_token_absent _ _ _ Hk). apply IH, Hks.
Qed.

(** ** What each operation leaves alone *)

Lemma resolveImage_frame (w : World) (fullPath : string) (acc : string * State) (phrase : string) :
  palette (resolveImage w fullPath acc phrase).2 = palette acc.2
  /\ dict (resolveImage w fullPath acc phrase).2 = dict acc.2
  /\ stylesheetsCache (resolveImage w fullPath acc phrase).2 = stylesheetsCache acc.2.
Proof.
  destruct acc as [qss s]. unfold resolveImage.
  destruct (decide _); [|destruct (file_exists w _)]; simpl; auto.
Qed.

Lemma resolveImages_frame (w : World) (fullPath : string) (phrases : list string) (acc : string * State) :
  palette (fold_left (resolveImage w fullPath) phrases acc).2 = palette acc.2
  /\ dict (fold_left (resolveImage w fullPath) phrases acc).2 = dict acc.2
  /\ stylesheetsCache (fold_left (resolveImage w fullPath) phrases acc).2 = stylesheetsCache acc.2.
Proof.
  revert acc. induction phrases as [|p ps IH]; intros acc; simpl; [auto|].
  destruct (IH (resolveImage w fullPath acc p)) as (Hp & Hd & Hc).
  destruct (resolveImage_frame w fullPath acc p) as (Hp' & Hd' & Hc').
  rewrite Hp, Hd, Hc. auto.
Qed.

Lemma resolveText_frame (w : World) (fullPath qss : string) (baseFont : QFont) (s : State) :
  palette (resolveText w fullPath qss baseFont s).2 = palette s
  /\ dict (resolveText w fullPath qss baseFont s).2
     = (if QMap.isEmpty (dict s) then dict_init baseFont s else dict s)
  /\ stylesheetsCache (resolveText w fullPath qss baseFont s).2 = stylesheetsCache s.
Proof.
  unfold resolveText.
  match goal with |- context [fold_left ?f ?l ?a] =>
    destruct (resolveImages_frame w fullPath l a) as (Hp & Hd & Hc) end.
  rewrite Hp, Hd, Hc. destruct (QMap.isEmpty (dict s)); simpl; auto.
Qed.

Lemma resolve_frame (w : World) (filename : string) (baseFont : QFont) (s : State) :
  palette (resolve w filename baseFont s).2 = palette s
  /\ (dict (resolve w filename baseFont s).2 = dict s
      \/ dict s = [] /\ dict (resolve w filename baseFont s).2 = dict_init baseFont s)
  /\ stylesheetsCache (resolve w filename baseFont s).2 = stylesheetsCache s.
Proof.
  assert (G : forall fp qss s0, palette s0 = palette s -> dict s0 = dict s ->
              stylesheetsCache s0 = stylesheetsCache s ->
              palette (resolveText w fp qss baseFont s0).2 = palette s
              /\ (dict (resolveText w fp qss baseFont s0).2 = dict s
                  \/ dict s = [] /\ dict (resolveText w fp qss baseFont s0).2 = dict_init baseFont s)
              /\ stylesheetsCache (resolveText w fp qss baseFont s0).2 = stylesheetsCache s).
  { intros fp qss s0 Hp Hd Hc.
    destruct (resolveText_frame w fp qss baseFont s0) as (Hp' & Hd' & Hc').
    rewrite Hp', Hd', Hc', Hd. repeat split; auto.
    destruct (dict s) eqn:E; simpl; [right|left; reflexivity].
    split; [reflexivity|]. unfold dict_init, getColor. rewrite Hp. reflexivity. }
  unfold resolve. destruct (open_text w _).
  - apply G; reflexivity.
  - destruct (open_text w BuiltinThemePath).
    + apply G; reflexivity.
    + simpl. auto.
Qed.

Lemma setThemeColor_frame (color : QColor) (s : State) :
  stylesheetsCache (setThemeColor color s) = stylesheetsCache s
  /\ existingImagesCache (setThemeColor color s) = existingImagesCache s
  /\ warnings (setThemeColor color s) = warnings s.
Proof. unfold setThemeColor. simpl. auto. Qed.

Lemma setThemeColor_int_clears (i : Z) (s : State) :
  stylesheetsCache (setThemeColor_int i s) = ∅.
Proof.
  unfold setThemeColor_int.
  destruct (_ || _)%bool; apply setThemeColor_frame.
Qed.

Lemma getImagePath_frame (w : World) (filename : string) (s : State) :
  palette (getImagePath w filename s).2 = palette s
  /\ dict (getImagePath w filename s).2 = dict s
  /\ stylesheetsCache (getImagePath w filename s).2 = stylesheetsCache s.
Proof.
  unfold getImagePath.
  destruct (decide _); [auto|].
  destruct (file_exists w _); [simpl; auto|].
  destruct (file_exists w _); simpl; auto.
Qed.

Lemma getStylesheet_hit (w : World) (filename : string) (baseFont : QFont)
    (sheet : string) (s : State) :
  stylesheetsCache s !! (getThemeFolder w +:+ filename, baseFont) = Some sheet ->
  getStylesheet w filename baseFont s = (sheet, s).
Proof. intros Hhit. unfold getStylesheet. rewrite Hhit. reflexivity. Qed.

Lemma getStylesheet_miss (w : World) (filename : string) (baseFont : QFont) (s : State) :
  stylesheetsCache s !! (getThemeFolder w +:+ filename, baseFont) = None ->
  getStylesheet w filename baseFont s
  = ((resolve w filename baseFont s).1,
     set_stylesheetsCache
       (<[(getThemeFolder w +:+ filename, baseFont) := (resolve w filename baseFont s).1]>
          (stylesheetsCache s))
       (resolve w filename baseFont s).2).
Proof.
  intros Hmiss. unfold getStylesheet. rewrite Hmiss.
  destruct (resolve_frame w filename baseFont s) as (_ & _ & Hc).
  destruct (resolve w filename baseFont s) as [sheet s1]. simpl in *.
  unfold map_insert. rewrite Hc, Hmiss. reflexivity.
Qed.

Lemma exec_keeps_entry (w : World) (c : Call) (s : State)
    (k : string * QFont) (sheet : string) :
  keeps_stylesheets c ->
  stylesheetsCache s !! k = Some sheet ->
  stylesheetsCache (exec w c s) !! k = Some sheet.
Proof.
  intros Hc Hk. destruct c as [f font|f font|f|i|color]; simpl in *.
  - destruct (stylesheetsCache s !! (getThemeFolder w +:+ f, font)) as [v|] eqn:E.
    + rewrite (getStylesheet_hit _ _ _ _ _ E). exact Hk.
    + rewrite (getStylesheet_miss _ _ _ _ E). simpl.
      rewrite lookup_insert_ne; [exact Hk | congruence].
  - destruct (resolve_frame w f font s) as (_ & _ & ->). exact Hk.
  - destruct (getImagePath_frame w f s) as (_ & _ & ->). exact Hk.
  - contradiction.
  - exact Hk.
Qed.

Lemma run_keeps_entry (calls : list (World * Call)) (s : State)
    (k : string * QFont) (sheet : string) :
  Forall (fun wc => keeps_stylesheets wc.2) calls ->
  stylesheetsCache s !! k = Some sheet ->
  stylesheetsCache (run calls s) !! k = Some sheet.
Proof.
  revert s. induction calls as [|[w c] cs IH]; intros s Hall Hk; [exact Hk|].
  inversion Hall as [|? ? Hc Hcs]; subst. simpl.
  apply IH; [exact Hcs|]. apply exec_keeps_entry; assumption.
Qed.

Lemma setThemeColor_dict (color : QColor) (s : State) :
  dict (setThemeColor color s)
  = QMap.insert "@themeLight" (Color.name (getColor ThemeLight (setThemeColor color s)))
      (QMap.insert "@themeMedium" (Color.name (getColor ThemeMedium (setThemeColor color s)))
        (QMap.insert "@themeMediumDark" (Color.name (getColor ThemeMediumDark (setThemeColor color s)))
          (QMap.insert "@themeDark" (Color.name (getColor ThemeDark (setThemeColor color s)))
            (dict s)))).
Proof. reflexivity. Qed.

(** ** The claims *)

(** C1 (as the code has it).  The colour overload of [setThemeColor] leaves
    the stylesheet cache as it was: a stylesheet cached before the call is
    served again after it, without being resolved anew.  Only the index
    overload empties the cache. *)
Theorem setThemeColor_keeps_cached_stylesheet (color : QColor) (w : World)
    (filename : string) (baseFont : QFont) (sheet : string) (s : State) :
  stylesheetsCache s !! (getThemeFolder w +:+ filename, baseFont) = Some sheet ->
  stylesheetsCache (setThemeColor color s) = stylesheetsCache s
  /\ getStylesheet w filename baseFont (setThemeColor color s)
     = (sheet, setThemeColor color s)
  /\ forall i, stylesheetsCache (setThemeColor_int i s) = ∅.
Proof.
  intros Hhit. destruct (setThemeColor_frame color s) as (Hc & _).
  split; [exact Hc|]. split.
  - apply getStylesheet_hit. rewrite Hc. exact Hhit.
  - intros i. apply setThemeColor_int_clears.
Qed.

(** C4.  When the template cannot be opened under the theme folder,
    [resolve] warns and opens the built-in theme path itself; what that
    path yields is resolved in place of the template, and when it cannot be
    opened either, [resolve] warns a second time and returns the empty
    string, the state being otherwise untouched. *)
Theorem resolve_unreadable_template (w : World) (filename : string)
    (baseFont : QFont) (s : State) :
  open_text w (getThemeFolder w +:+ filename) = None ->
  (forall qss, open_text w BuiltinThemePath = Some qss ->
     resolve w filename baseFont s
     = resolveText w BuiltinThemePath qss baseFont
         (qWarning (FailedToOpenFile (getThemeFolder w +:+ filename)) s))
  /\ (open_text w BuiltinThemePath = None ->
      resolve w filename baseFont s
      = (EmptyString,
         mkState (palette s) (dict s) (stylesheetsCache s) (existingImagesCache s)
           (warnings s ++ [FailedToOpenFile (getThemeFolder w +:+ filename);
                           FailedToOpenDefaultFile BuiltinThemePath]))).
Proof.
  intros Hopen. unfold resolve. rewrite Hopen. split.
  - intros qss ->. reflexivity.
  - intros ->. unfold qWarning. simpl. rewrite <- app_assoc. reflexivity.
Qed.

(** C6.  [setThemeColor] with an invalid colour puts the four default
    colours into the accent slots, whatever the state was; and
    [setThemeColor(int)] with an index below zero or not below the number
    of presets is [setThemeColor] of the invalid colour (after the cache
    has been emptied), with the same palette and dictionary as a result. *)
Theorem setThemeColor_reset (color : QColor) (i : Z) (s : State) :
  isValid color = false ->
  (i < 0 \/ Z.of_nat (length themeColorColors) <= i)%Z ->
  accents (setThemeColor color s)
  = (Color.fromName "#1c1c1c", Color.fromName "#2a2a2a",
     Color.fromName "#414141", Color.fromName "#4e4e4e")
  /\ setThemeColor_int i s = setThemeColor Color.invalid (set_stylesheetsCache ∅ s)
  /\ palette (setThemeColor_int i s) = palette (setThemeColor color s)
  /\ dict (setThemeColor_int i s) = dict (setThemeColor color s).
Proof.
  intros Hinv Hi.
  assert (E : setThemeColor_int i s = setThemeColor Color.invalid (set_stylesheetsCache ∅ s)).
  { unfold setThemeColor_int.
    destruct ((i <? 0) || (i >=? Z.of_nat (length themeColorColors)))%Z eqn:B;
      [reflexivity|].
    apply orb_false_iff in B as [B1 B2]. lia. }
  split; [|split; [exact E|]].
  - unfold accents, getColor, setThemeColor. rewrite Hinv. reflexivity.
  - rewrite E. unfold setThemeColor. rewrite Hinv. simpl. split; reflexivity.
Qed.

(** C7.  For a valid colour, [setThemeColor] stores the colour darkened by
    155, 135 and 120 and lightened by 110 in the four accent slots, and
    their names under the four accent tokens; the result depends on the
    colour only, so it is the same from every state and when the call is
    repeated. *)
Theorem setThemeColor_derives (color : QColor) (s : State) :
  isValid color = true ->
  accents (setThemeColor color s)
  = (darker 155 color, darker 135 color, darker 120 color, lighter 110 color)
  /\ QMap.value "@themeDark" (dict (setThemeColor color s)) = Color.name (darker 155 color)
  /\ QMap.value "@themeMediumDark" (dict (setThemeColor color s)) = Color.name (darker 135 color)
  /\ QMap.value "@themeMedium" (dict (setThemeColor color s)) = Color.name (darker 120 color)
  /\ QMap.value "@themeLight" (dict (setThemeColor color s)) = Color.name (lighter 110 color)
  /\ (forall s', accents (setThemeColor color s') = accents (setThemeColor color s))
  /\ accents (setThemeColor color (setThemeColor color s)) = accents (setThemeColor color s).
Proof.
  intros Hv.
  assert (Hd : forall s0, getColor ThemeDark (setThemeColor color s0) = darker 155 color)
    by (intros; unfold getColor, setThemeColor; rewrite Hv; reflexivity).
  assert (Hmd : forall s0, getColor ThemeMediumDark (setThemeColor color s0) = darker 135 color)
    by (intros; unfold getColor, setThemeColor; rewrite Hv; reflexivity).
  assert (Hm : forall s0, getColor ThemeMedium (setThemeColor color s0) = darker 120 color)
    by (intros; unfold getColor, setThemeColor; rewrite Hv; reflexivity).
  assert (Hl : forall s0, getColor ThemeLight (setThemeColor color s0) = lighter 110 color)
    by (intros; unfold getColor, setThemeColor; rewrite Hv; reflexivity).
  assert (A : forall s0, accents (setThemeColor color s0)
              = (darker 155 color, darker 135 color, darker 120 color, lighter 110 color))
    by (intros; unfold accents; rewrite Hd, Hmd, Hm, Hl; reflexivity).
  split; [exact (A s)|].
  rewrite setThemeColor_dict, Hd, Hmd, Hm, Hl.
  repeat split.
  - rewrite !QMap_value_insert_ne by discriminate. apply QMap_value_insert_eq.
  - rewrite !QMap_value_insert_ne by discriminate. apply QMap_value_insert_eq.
  - rewrite !QMap_value_insert_ne by discriminate. apply QMap_value_insert_eq.
  - apply QMap_value_insert_eq.
  - intros s'. rewrite (A s'), (A s). reflexivity.
  - rewrite (A (setThemeColor color s)), (A s). reflexivity.
Qed.

(** C5 (amended).  [getImagePath] answers a candidate path that is in the
    existence cache without looking at the file system.  A candidate that
    exists in the theme folder is returned and is in the cache afterwards.
    For a candidate that is not in the cache and does not exist, the
    built-in path is returned when it exists and the empty string when it
    does not, and the cache stays as it was in both cases. *)
Theorem getImagePath_cases (w : World) (filename : string) (s : State) :
  let candidate := getThemeFolder w +:+ filename in
  let fallback := BuiltinThemePath +:+ filename in
  (candidate ∈ existingImagesCache s ->
     getImagePath w filename s = (candidate, s))
  /\ (file_exists w candidate = true ->
      (getImagePath w filename s).1 = candidate
      /\ existingImagesCache (getImagePath w filename s).2
         = (if decide (candidate ∈ existingImagesCache s)
            then existingImagesCache s
            else (existingImagesCache s ++ [candidate])%list)
      /\ candidate ∈ existingImagesCache (getImagePath w filename s).2)
  /\ (candidate ∉ existingImagesCache s ->
      file_exists w candidate = false -> file_exists w fallback = true ->
      (getImagePath w filename s).1 = fallback
      /\ existingImagesCache (getImagePath w filename s).2 = existingImagesCache s)
  /\ (candidate ∉ existingImagesCache s ->
      file_exists w candidate = false -> file_exists w fallback = false ->
      (getImagePath w filename s).1 = EmptyString
      /\ existingImagesCache (getImagePath w filename s).2 = existingImagesCache s).
Proof.
  intros candidate fallback. subst candidate fallback. unfold getImagePath.
  split; [|split; [|split]].
  - intros Hin. destruct (decide _); [reflexivity|contradiction].
  - intros Hex. destruct (decide _) as [Hin|Hnin]; [simpl; auto|].
    rewrite Hex. simpl. repeat split.
    apply elem_of_app. right. apply list_elem_of_singleton. reflexivity.
  - intros Hnin Hex Hfb. destruct (decide _); [contradiction|].
    rewrite Hex, Hfb. simpl. auto.
  - intros Hnin Hex Hfb. destruct (decide _); [contradiction|].
    rewrite Hex, Hfb. simpl. auto.
Qed.

(** C8.  Of two calls of [getStylesheet] for the same file name and font
    under the same theme folder, with nothing in between, the second
    returns the text of the first and leaves the state as it is (no warning,
    no dictionary or image-cache update: the template is not resolved
    again), whatever the files hold by then.  On a miss the first call
    returns what [resolve] returns and stores it under the key made of the
    full path and the font. *)
Theorem getStylesheet_twice (w1 w2 : World) (filename : string)
    (baseFont : QFont) (s : State) :
  getThemeFolder w2 = getThemeFolder w1 ->
  let key := (getThemeFolder w1 +:+ filename, baseFont) in
  let first := getStylesheet w1 filename baseFont s in
  getStylesheet w2 filename baseFont first.2 = (first.1, first.2)
  /\ (stylesheetsCache s !! key = None ->
      first.1 = (resolve w1 filename baseFont s).1
      /\ first.2 = set_stylesheetsCache
                     (<[key := (resolve w1 filename baseFont s).1]> (stylesheetsCache s))
                     (resolve w1 filename baseFont s).2
      /\ stylesheetsCache first.2 !! key = Some (resolve w1 filename baseFont s).1).
Proof.
  intros Hfolder key first. subst first.
  destruct (stylesheetsCache s !! key) as [sheet|] eqn:E.
  - rewrite (getStylesheet_hit w1 filename baseFont sheet s E). simpl.
    split; [|discriminate].
    apply getStylesheet_hit. rewrite Hfolder. exact E.
  - rewrite (getStylesheet_miss w1 filename baseFont s E). simpl.
    split.
    + apply getStylesheet_hit. simpl. rewrite Hfolder. apply lookup_insert_eq.
    + intros _. repeat split. apply lookup_insert_eq.
Qed.

(** C10.  A miss whose resolution fails stores the empty string.  Every
    entry of the stylesheet cache is still there after any calls other than
    [setThemeColor(int)], whatever the file system has become, and
    [getStylesheet] for its key returns it and changes nothing; so the empty
    string stored for a template that could not be read is returned even
    once the template can be read.  [setThemeColor(int)] empties the
    cache. *)
Theorem stylesheet_entries_persist (w : World) (filename : string)
    (baseFont : QFont) (s : State) (calls : list (World * Call)) :
  Forall (fun wc => keeps_stylesheets wc.2) calls ->
  (stylesheetsCache s !! (getThemeFolder w +:+ filename, baseFont) = None ->
   open_text w (getThemeFolder w +:+ filename) = None ->
   open_text w BuiltinThemePath = None ->
   (getStylesheet w filename baseFont s).1 = EmptyString
   /\ stylesheetsCache (getStylesheet w filename baseFont s).2
        !! (getThemeFolder w +:+ filename, baseFont) = Some EmptyString
   /\ forall w', getThemeFolder w' = getThemeFolder w ->
        getStylesheet w' filename baseFont
          (run calls (getStylesheet w filename baseFont s).2)
        = (EmptyString, run calls (getStylesheet w filename baseFont s).2))
  /\ (forall k sheet, stylesheetsCache s !! k = Some sheet ->
        stylesheetsCache (run calls s) !! k = Some sheet
        /\ forall w' f' font', (getThemeFolder w' +:+ f', font') = k ->
             getStylesheet w' f' font' (run calls s) = (sheet, run calls s))
  /\ (forall i, stylesheetsCache (setThemeColor_int i (run calls s)) = ∅).
Proof.
  intros Hcalls. split; [|split].
  - intros Hmiss Ho1 Ho2.
    rewrite (getStylesheet_miss w filename baseFont s Hmiss).
    assert (E : (resolve w filename baseFont s).1 = EmptyString).
    { unfold resolve. rewrite Ho1, Ho2. reflexivity. }
    rewrite E. simpl. split; [reflexivity|].
    split; [apply lookup_insert_eq|].
    intros w' Hw'. apply getStylesheet_hit. rewrite Hw'.
    apply run_keeps_entry; [exact Hcalls|]. simpl. apply lookup_insert_eq.
  - intros k sheet Hk.
    pose proof (run_keeps_entry calls s k sheet Hcalls Hk) as Hrun.
    split; [exact Hrun|].
    intros w' f' font' <-. apply getStylesheet_hit. exact Hrun.
  - intros i. apply setThemeColor_int_clears.
Qed.

(** *** The dictionary along a run *)

Lemma setThemeColor_accent_dict (color : QColor) (s : State) :
  dict s = [] \/ dict s = accent_dict (palette s) ->
  dict (setThemeColor color s) = accent_dict (palette (setThemeColor color s)).
Proof.
  intros H. rewrite setThemeColor_dict. unfold getColor.
  generalize (palette (setThemeColor color s)) as p. intros p.
  destruct H as [-> | ->]; reflexivity.
Qed.

Lemma exec_accent_dict (w : World) (c : Call) (s : State) :
  dict s = accent_dict (palette s) ->
  dict (exec w c s) = accent_dict (palette (exec w c s)).
Proof.
  intros H.
  assert (R : forall f font, dict (resolve w f font s).2
                             = accent_dict (palette (resolve w f font s).2)).
  { intros f font. destruct (resolve_frame w f font s) as (Hp & [Hd|[Hd _]] & _).
    - rewrite Hp, Hd. exact H.
    - rewrite H in Hd. discriminate. }
  destruct c as [f font|f font|f|i|color]; simpl.
  - destruct (stylesheetsCache s !! (getThemeFolder w +:+ f, font)) as [v|] eqn:E.
    + rewrite (getStylesheet_hit _ _ _ _ _ E). exact H.
    + rewrite (getStylesheet_miss _ _ _ _ E). simpl. apply R.
  - apply R.
  - destruct (getImagePath_frame w f s) as (-> & -> & _). exact H.
  - unfold setThemeColor_int. destruct (_ || _)%bool;
      apply setThemeColor_accent_dict; right; exact H.
  - apply setThemeColor_accent_dict. right. exact H.
Qed.

Lemma run_accent_dict (calls : list (World * Call)) (s : State) :
  dict s = accent_dict (palette s) ->
  dict (run calls s) = accent_dict (palette (run calls s)).
Proof.
  revert s. induction calls as [|[w c] cs IH]; intros s H; [exact H|].
  simpl. apply IH, exec_accent_dict, H.
Qed.

Lemma run_getImagePath_dict (calls : list (World * Call)) (s : State) :
  Forall (fun wc => is_getImagePath wc.2) calls ->
  dict (run calls s) = dict s.
Proof.
  revert s. induction calls as [|[w c] cs IH]; intros s Hall; [reflexivity|].
  inversion Hall as [|? ? Hc Hcs]; subst. simpl. rewrite (IH _ Hcs).
  destruct c; simpl in Hc; try contradiction. simpl.
  apply getImagePath_frame.
Qed.

Lemma run_app (xs ys : list (World * Call)) (s : State) :
  run (xs ++ ys) s = run ys (run xs s).
Proof. apply fold_left_app. Qed.

Lemma setThemeColor_known_keys (color : QColor) (s : State) :
  known_keys s -> known_keys (setThemeColor color s).
Proof.
  intros H k. rewrite setThemeColor_dict. intros Hin.
  repeat (apply QMap_insert_keys in Hin as [->|Hin];
          [simpl; repeat (first [left; reflexivity | right])|]).
  apply H, Hin.
Qed.

Lemma dict_init_keys (baseFont : QFont) (s : State) (k : string) :
  In k (QMap.keys (dict_init baseFont s)) -> In k tokens.
Proof. intros Hin. apply QMap_of_list_keys in Hin. exact Hin. Qed.

Lemma exec_known_keys (w : World) (c : Call) (s : State) :
  known_keys s -> known_keys (exec w c s).
Proof.
  intros H.
  assert (R : forall f font, known_keys (resolve w f font s).2).
  { intros f font k. destruct (resolve_frame w f font s) as (_ & [Hd|[_ Hd]] & _);
      rewrite Hd; [apply H | apply dict_init_keys]. }
  destruct c as [f font|f font|f|i|color]; simpl.
  - destruct (stylesheetsCache s !! (getThemeFolder w +:+ f, font)) as [v|] eqn:E.
    + rewrite (getStylesheet_hit _ _ _ _ _ E). exact H.
    + rewrite (getStylesheet_miss _ _ _ _ E). exact (R f font).
  - apply R.
  - intros k. destruct (getImagePath_frame w f s) as (_ & -> & _). apply H.
  - unfold setThemeColor_int. destruct (_ || _)%bool;
      apply setThemeColor_known_keys; exact H.
  - apply setThemeColor_known_keys, H.
Qed.

Lemma run_known_keys (calls : list (World * Call)) (s : State) :
  known_keys s -> known_keys (run calls s).
Proof.
  revert s. induction calls as [|[w c] cs IH]; intros s H; [exact H|].
  simpl. apply IH, exec_known_keys, H.
Qed.

Lemma resolveText_plain (w : World) (fullPath qss : string) (baseFont : QFont) (s : State) :
  known_keys s ->
  Forall (fun key => QString.token_occurs key qss = false) tokens ->
  QString.globalMatch 0 qss = [] ->
  (resolveText w fullPath qss baseFont s).1 = qss.
Proof.
  intros Hkeys Htok Himg. unfold resolveText.
  assert (E : substitute (dict (if QMap.isEmpty (dict s)
                                then set_dict (dict_init baseFont s) s else s)) qss = qss).
  { apply substitute_absent. apply Forall_forall. intros k Hk.
    rewrite Forall_forall in Htok. apply Htok. apply list_elem_of_In.
    apply list_elem_of_In in Hk.
    destruct (QMap.isEmpty (dict s)); [exact (dict_init_keys _ _ _ Hk) | exact (Hkeys _ Hk)]. }
  rewrite E, Himg. reflexivity.
Qed.

(** C3.  When a [setThemeColor] call (either overload) comes before any
    call of [resolve] or [getStylesheet], then after every continuation of
    the run the dictionary holds the four accent entries and nothing else.
    [resolve] then replaces the four accent tokens only: the text it
    returns is the template after these four replacements and the image
    pass, and a template without accent tokens and image references comes
    back as it is, whatever other tokens it contains. *)
Theorem accent_only_dictionary (pre post : list (World * Call)) (w0 : World) (c : Call) :
  Forall (fun wc => is_getImagePath wc.2) pre ->
  is_setThemeColor c ->
  let s := run (pre ++ (w0, c) :: post) initial in
  let accentPass := fun qss =>
    QString.replace_token "@themeMediumDark" (Color.name (getColor ThemeMediumDark s))
      (QString.replace_token "@themeMedium" (Color.name (getColor ThemeMedium s))
        (QString.replace_token "@themeLight" (Color.name (getColor ThemeLight s))
          (QString.replace_token "@themeDark" (Color.name (getColor ThemeDark s)) qss))) in
  dict s = accent_dict (palette s)
  /\ (forall w filename baseFont qss,
        open_text w (getThemeFolder w +:+ filename) = Some qss ->
        resolve w filename baseFont s
        = fold_left (resolveImage w (getThemeFolder w +:+ filename))
            (QString.globalMatch 0 (accentPass qss)) (accentPass qss, s))
  /\ (forall w filename baseFont qss,
        open_text w (getThemeFolder w +:+ filename) = Some qss ->
        Forall (fun key => QString.token_occurs key qss = false) accent_tokens ->
        QString.globalMatch 0 qss = [] ->
        resolve w filename baseFont s = (qss, s)).
Proof.
  intros Hpre Hc s accentPass.
  assert (D : dict s = accent_dict (palette s)).
  { subst s. rewrite run_app. simpl. apply run_accent_dict.
    assert (E : dict (run pre initial) = []) by (rewrite run_getImagePath_dict; auto).
    destruct c as [f font|f font|f|i|color]; simpl in Hc; try contradiction; simpl.
    - unfold setThemeColor_int. destruct (_ || _)%bool;
        apply setThemeColor_accent_dict; left; exact E.
    - apply setThemeColor_accent_dict. left. exact E. }
  assert (R : forall w filename baseFont qss,
        open_text w (getThemeFolder w +:+ filename) = Some qss ->
        resolve w filename baseFont s
        = fold_left (resolveImage w (getThemeFolder w +:+ filename))
            (QString.globalMatch 0 (accentPass qss)) (accentPass qss, s)).
  { intros w filename baseFont qss Hopen. unfold resolve. rewrite Hopen.
    unfold resolveText. rewrite D.
    change (QMap.isEmpty (accent_dict (palette s))) with false. cbv iota.
    rewrite D. reflexivity. }
  split; [exact D|]. split; [exact R|].
  intros w filename baseFont qss Hopen Htok Himg. rewrite (R _ _ _ _ Hopen).
  assert (E : accentPass qss = qss).
  { inversion Htok as [|? ? H1 Htok1]; subst.
    inversion Htok1 as [|? ? H2 Htok2]; subst.
    inversion Htok2 as [|? ? H3 Htok3]; subst.
    inversion Htok3 as [|? ? H4 _]; subst.
    subst accentPass. cbv beta.
    rewrite (replace_token_absent _ _ _ H1), (replace_token_absent _ _ _ H2),
            (replace_token_absent _ _ _ H3), (replace_token_absent _ _ _ H4).
    reflexivity. }
  rewrite E, Himg. reflexivity.
Qed.

(** C9.  In every state that a run can reach, [resolve] returns the text of
    the template unchanged when none of the token names of the dictionary
    matches in it as a token and the image pattern does not match in it. *)
Theorem resolve_plain_template (calls : list (World * Call)) (w : World)
    (filename : string) (baseFont : QFont) (qss : string) :
  open_text w (getThemeFolder w +:+ filename) = Some qss
  \/ open_text w (getThemeFolder w +:+ filename) = None
     /\ open_text w BuiltinThemePath = Some qss ->
  Forall (fun key => QString.token_occurs key qss = false) tokens ->
  QString.globalMatch 0 qss = [] ->
  (resolve w filename baseFont (run calls initial)).1 = qss.
Proof.
  intros Hopen Htok Himg.
  assert (K : known_keys (run calls initial)).
  { apply run_known_keys. intros k []. }
  unfold resolve. destruct Hopen as [-> | [-> ->]].
  - apply resolveText_plain; assumption.
  - apply resolveText_plain; assumption.
Qed.

End Facts.

(** ** Closed instances, on the platform and file systems of [Sample] *)

Module Scenarios.

Import Sample.

#[local] Existing Instance Sample.qt.

(** A template of the user's theme with one colour token. *)
Example resolve_green :
  (resolve (fs true [(inTheme "chat.css", "color: @green;")]) "chat.css" font initial).1
  = "color: #6bc260;".
Proof. vm_compute. reflexivity. Qed.

(** A token is replaced only where a word boundary follows it; the image
    pattern needs an argument without blank and a closing parenthesis. *)
Example replace_token_boundary :
  QString.replace_token "@medium" "M" "@medium; @mediumBold; @medium_x; @medium" = "M; @mediumBold; @medium_x; M".
Proof. reflexivity. Qed.

Example globalMatch_phrases :
  QString.globalMatch 0 "a @getImagePath(x.png) b @getImagePath(y z) @getImagePath()"
  = ["@getImagePath(x.png)"; "@getImagePath()"].
Proof. reflexivity. Qed.

(** [main.css] is cached with the default accent, the accent becomes blue
    through the colour overload, and [getStylesheet] still returns the text
    with the old accent, whereas [resolve] now gives another one. *)
Lemma setThemeColor_keeps_cached_stylesheet_witness :
  let s := (getStylesheet mainWorld "main.css" font initial).2 in
  let sheet := "color: #6bc260; border: #1c1c1c; font: 'Sans' 12px;" in
  stylesheetsCache s !! (getThemeFolder mainWorld +:+ "main.css", font) = Some sheet
  /\ getStylesheet mainWorld "main.css" font (setThemeColor blue s)
     = (sheet, setThemeColor blue s)
  /\ (resolve mainWorld "main.css" font (setThemeColor blue s)).1
     = "color: #6bc260; border: #002f69; font: 'Sans' 12px;".
Proof.
  intros s sheet.
  assert (H : stylesheetsCache s !! (getThemeFolder mainWorld +:+ "main.css", font) = Some sheet)
    by (vm_compute; reflexivity).
  split; [exact H|]. split.
  - exact (proj1 (proj2 (setThemeColor_keeps_cached_stylesheet blue mainWorld "main.css" font sheet s H))).
  - vm_compute. reflexivity.
Defined.

(** C2 (as the code has it).  The image pass of [resolve] looks up the path
    of the template, not the path of the image, in the existence cache.
    Once the template's own path is in that cache, a missing image is
    replaced by its path under the theme folder, without existence check,
    warning or fallback; from the initial state the same template gets the
    built-in path.  And an image that is in the cache is checked on the
    file system and added to the cache again. *)
Theorem resolve_image_lookup_by_template_path :
  let s := (getImagePath chatWorld "chat.css" initial).2 in
  existingImagesCache s = [inTheme "chat.css"]
  /\ file_exists chatWorld (inTheme "missing.png") = false
  /\ (resolve chatWorld "chat.css" font s).1
     = "QPushButton { image: url(/home/user/.local/share/qTox/themes/default/missing.png); }"
  /\ warnings (resolve chatWorld "chat.css" font s).2 = []
  /\ (resolve chatWorld "chat.css" font initial).1
     = "QPushButton { image: url(:themes/default/missing.png); }"
  /\ existingImagesCache
       (resolve iconWorld "icons.css" font (resolve iconWorld "icons.css" font initial).2).2
     = [inTheme "a.png"; inTheme "a.png"].
Proof. vm_compute. repeat split. Qed.

Lemma accent_only_dictionary_witness :
  let pre := [(imageWorld, CallGetImagePath "a.png")] in
  let post := [(mainWorld, CallGetStylesheet "main.css" font)] in
  let s := run (pre ++ (mainWorld, CallSetThemeColorInt 1) :: post) initial in
  Forall (fun wc => is_getImagePath wc.2) pre
  /\ is_setThemeColor (CallSetThemeColorInt 1)
  /\ dict s = accent_dict (palette s)
  /\ (resolve mainWorld "main.css" font s).1
     = "color: @green; border: #002f69; font: @baseFont;".
Proof.
  intros pre post s.
  assert (Hpre : Forall (fun wc => is_getImagePath wc.2) pre) by (repeat constructor).
  assert (Hc : is_setThemeColor (CallSetThemeColorInt 1)) by exact I.
  destruct (accent_only_dictionary pre post mainWorld (CallSetThemeColorInt 1) Hpre Hc)
    as (D & R & _).
  split; [exact Hpre|]. split; [exact Hc|]. split; [exact D|].
  fold s in R. rewrite (R mainWorld "main.css" font _ eq_refl).
  vm_compute. reflexivity.
Defined.

Lemma resolve_unreadable_template_witness :
  open_text emptyWorld (getThemeFolder emptyWorld +:+ "missing.css") = None
  /\ open_text emptyWorld BuiltinThemePath = None
  /\ (resolve emptyWorld "missing.css" font initial).1 = EmptyString
  /\ warnings (resolve emptyWorld "missing.css" font initial).2
     = [FailedToOpenFile "/home/user/.local/share/qTox/themes/default/missing.css";
        FailedToOpenDefaultFile ":themes/default/"].
Proof.
  split; [reflexivity|]. split; [reflexivity|].
  rewrite (proj2 (resolve_unreadable_template emptyWorld "missing.css" font initial eq_refl) eq_refl).
  split; reflexivity.
Defined.

(** [a.png] was found in the theme folder and is gone from it afterwards:
    its path is in the existence cache.  When it then exists in the
    built-in theme only, or nowhere, [getImagePath] returns neither the
    built-in path nor the empty string. *)
Lemma getImagePath_stale_cache_hit :
  let s := (getImagePath imageWorld "a.png" initial).2 in
  (file_exists builtinImageWorld (getThemeFolder builtinImageWorld +:+ "a.png") = false
   /\ file_exists builtinImageWorld (BuiltinThemePath +:+ "a.png") = true
   /\ (getImagePath builtinImageWorld "a.png" s).1 <> (BuiltinThemePath +:+ "a.png"))
  /\ (file_exists emptyWorld (getThemeFolder emptyWorld +:+ "a.png") = false
      /\ file_exists emptyWorld (BuiltinThemePath +:+ "a.png") = false
      /\ (getImagePath emptyWorld "a.png" s).1 <> EmptyString).
Proof. vm_compute. repeat split; discriminate. Qed.

Lemma getImagePath_cases_witness :
  let s := (getImagePath imageWorld "a.png" initial).2 in
  (* in the cache *)
  (inTheme "a.png" ∈ existingImagesCache s
   /\ getImagePath emptyWorld "a.png" s = (inTheme "a.png", s))
  (* in the theme folder *)
  /\ (file_exists imageWorld (inTheme "a.png") = true
      /\ (getImagePath imageWorld "a.png" initial).1 = inTheme "a.png"
      /\ inTheme "a.png" ∈ existingImagesCache s)
  (* in the built-in theme only *)
  /\ ((inTheme "a.png" ∉ existingImagesCache initial)
      /\ (getImagePath builtinImageWorld "a.png" initial).1 = ":themes/default/a.png"
      /\ existingImagesCache (getImagePath builtinImageWorld "a.png" initial).2 = [])
  (* nowhere *)
  /\ ((getImagePath emptyWorld "a.png" initial).1 = EmptyString
      /\ existingImagesCache (getImagePath emptyWorld "a.png" initial).2 = []).
Proof.
  intros s.
  assert (Hin : inTheme "a.png" ∈ existingImagesCache s) by (vm_compute; left).
  assert (Hnin : inTheme "a.png" ∉ existingImagesCache initial) by (vm_compute; inversion 1).
  split; [|split; [|split]].
  - split; [exact Hin|].
    exact (proj1 (getImagePath_cases emptyWorld "a.png" s) Hin).
  - split; [reflexivity|].
    destruct (proj1 (proj2 (getImagePath_cases imageWorld "a.png" initial)) eq_refl)
      as (H1 & _ & H3).
    split; [exact H1 | exact H3].
  - split; [exact Hnin|].
    exact (proj1 (proj2 (proj2 (getImagePath_cases builtinImageWorld "a.png" initial)))
             Hnin eq_refl eq_refl).
  - exact (proj2 (proj2 (proj2 (getImagePath_cases emptyWorld "a.png" initial)))
             Hnin eq_refl eq_refl).
Defined.

Lemma setThemeColor_reset_witness :
  let s := setThemeColor blue initial in
  isValid Color.invalid = false
  /\ (7 < 0 \/ Z.of_nat (length themeColorColors) <= 7)%Z
  /\ accents (setThemeColor Color.invalid s)
     = (Color.fromName "#1c1c1c", Color.fromName "#2a2a2a",
        Color.fromName "#414141", Color.fromName "#4e4e4e")
  /\ palette (setThemeColor_int 7 s) = palette (setThemeColor Color.invalid s)
  /\ dict (setThemeColor_int 7 s) = dict (setThemeColor Color.invalid s).
Proof.
  intros s.
  assert (Hi : (7 < 0 \/ Z.of_nat (length themeColorColors) <= 7)%Z) by (simpl; lia).
  destruct (setThemeColor_reset Color.invalid 7 s eq_refl Hi) as (A & _ & P & D).
  split; [reflexivity|]. split; [exact Hi|]. split; [exact A|]. split; [exact P|exact D].
Defined.

Lemma setThemeColor_derives_witness :
  isValid blue = true
  /\ accents (setThemeColor blue initial)
     = (darker 155 blue, darker 135 blue, darker 120 blue, lighter 110 blue)
  /\ accents (setThemeColor blue (setThemeColor blue initial))
     = accents (setThemeColor blue initial).
Proof.
  destruct (setThemeColor_derives blue initial eq_refl) as (A & _ & _ & _ & _ & _ & R).
  split; [reflexivity|]. split; [exact A|exact R].
Defined.

Lemma getStylesheet_twice_witness :
  let first := getStylesheet mainWorld "main.css" font initial in
  getThemeFolder mainWorld' = getThemeFolder mainWorld
  /\ first.1 = "color: #6bc260; border: #1c1c1c; font: 'Sans' 12px;"
  /\ getStylesheet mainWorld' "main.css" font first.2 = (first.1, first.2)
  /\ (resolve mainWorld' "main.css" font first.2).1 = "color: #c84e4e;".
Proof.
  intros first.
  split; [reflexivity|]. split; [vm_compute; reflexivity|]. split.
  - exact (proj1 (getStylesheet_twice mainWorld mainWorld' "main.css" font initial eq_refl)).
  - vm_compute. reflexivity.
Defined.

Lemma resolve_plain_template_witness :
  let calls := [(mainWorld, CallGetStylesheet "main.css" font)] in
  let qss := "QWidget { margin: 0; } /* @greenish, @getImagePath(a b) */" in
  open_text plainWorld (getThemeFolder plainWorld +:+ "plain.css") = Some qss
  /\ Forall (fun key => QString.token_occurs key qss = false) tokens
  /\ QString.globalMatch 0 qss = []
  /\ (resolve plainWorld "plain.css" font (run calls initial)).1 = qss.
Proof.
  intros calls qss.
  assert (Htok : Forall (fun key => QString.token_occurs key qss = false) tokens)
    by (repeat constructor).
  split; [reflexivity|]. split; [exact Htok|]. split; [reflexivity|].
  exact (resolve_plain_template calls plainWorld "plain.css" font qss
           (or_introl eq_refl) Htok eq_refl).
Defined.

Lemma stylesheet_entries_persist_witness :
  let calls := [(mainWorld, CallSetThemeColor blue); (mainWorld, CallGetImagePath "a.png")] in
  let s := (getStylesheet emptyWorld "main.css" font initial).2 in
  Forall (fun wc => keeps_stylesheets wc.2) calls
  /\ stylesheetsCache initial !! (getThemeFolder emptyWorld +:+ "main.css", font) = None
  /\ open_text emptyWorld (getThemeFolder emptyWorld +:+ "main.css") = None
  /\ open_text emptyWorld BuiltinThemePath = None
  /\ open_text mainWorld (getThemeFolder mainWorld +:+ "main.css")
     = Some "color: @green; border: @themeDark; font: @baseFont;"
  /\ (getStylesheet emptyWorld "main.css" font initial).1 = EmptyString
  /\ getStylesheet mainWorld "main.css" font (run calls s) = (EmptyString, run calls s).
Proof.
  intros calls s.
  assert (Hcalls : Forall (fun wc => keeps_stylesheets wc.2) calls) by (repeat constructor).
  destruct (proj1 (stylesheet_entries_persist emptyWorld "main.css" font initial calls Hcalls)
              eq_refl eq_refl eq_refl) as (E & _ & P).
  split; [exact Hcalls|]. do 4 (split; [reflexivity|]).
  split; [exact E|]. exact (P mainWorld eq_refl).
Defined.

End Scenarios.

(** * Further properties of the module *)

(** ** The dictionary initializer in key order *)

Lemma QMap_of_list_sorted
    (v1 v2 v3 v4 v5 v6 v7 v8 v9 v10 v11 v12 v13 v14 v15 v16 v17 v18 v19 v20 v21 v22 : string) :
  QMap.of_list
    [ ("@green", v1); ("@yellow", v2); ("@red", v3); ("@black", v4);
      ("@darkGrey", v5); ("@mediumGrey", v6); ("@mediumGreyLight", v7);
      ("@lightGrey", v8); ("@white", v9); ("@orange", v10);
      ("@themeDark", v11); ("@themeMediumDark", v12); ("@themeMedium", v13);
      ("@themeLight", v14); ("@baseFont", v15); ("@extraBig", v16);
      ("@big", v17); ("@bigBold", v18); ("@medium", v19);
      ("@mediumBold", v20); ("@small", v21); ("@smallLight", v22) ]
  = [ ("@baseFont", v15); ("@big", v17); ("@bigBold", v18); ("@black", v4);
      ("@darkGrey", v5); ("@extraBig", v16); ("@green", v1);
      ("@lightGrey", v8); ("@medium", v19); ("@mediumBold", v20);
      ("@mediumGrey", v6); ("@mediumGreyLight", v7); ("@orange", v10);
      ("@red", v3); ("@small", v21); ("@smallLight", v22);
      ("@themeDark", v11); ("@themeLight", v14); ("@themeMedium", v13);
      ("@themeMediumDark", v12); ("@white", v9); ("@yellow", v2) ].
Proof. reflexivity. Qed.

Lemma QMap_insert_keys_eq (k v : string) (m : list (string * string)) :
  QMap.keys (QMap.insert k v m) = insert_key k (QMap.keys m).
Proof.
  induction m as [|[k0 v0] r IH]; simpl; [reflexivity|].
  destruct (String.compare k k0); simpl; [reflexivity | reflexivity |].
  f_equal. exact IH.
Qed.

Lemma QMap_insert_nonempty (k v : string) (m : list (string * string)) :
  QMap.insert k v m <> [].
Proof.
  destruct m as [|[k0 v0] r]; simpl; [discriminate|].
  destruct (String.compare k k0); discriminate.
Qed.

Section MoreFacts.

Context `{Qt : Platform}.

Lemma dict_init_keys_sorted (baseFont : QFont) (s : State) :
  QMap.keys (dict_init baseFont s) = sorted_tokens.
Proof. unfold dict_init. rewrite QMap_of_list_sorted. reflexivity. Qed.

Lemma dict_init_accents (baseFont : QFont) (s : State) :
  QMap.value "@themeDark" (dict_init baseFont s) = Color.name (getColor ThemeDark s)
  /\ QMap.value "@themeMediumDark" (dict_init baseFont s) = Color.name (getColor ThemeMediumDark s)
  /\ QMap.value "@themeMedium" (dict_init baseFont s) = Color.name (getColor ThemeMedium s)
  /\ QMap.value "@themeLight" (dict_init baseFont s) = Color.name (getColor ThemeLight s).
Proof. unfold dict_init. rewrite QMap_of_list_sorted. repeat split. Qed.

(** ** The palette along a run *)

Lemma setThemeColor_static (e : ColorPalette) (color : QColor) (s : State) :
  is_accent e = false -> getColor e (setThemeColor color s) = getColor e s.
Proof.
  intros He. unfold getColor, setThemeColor.
  destruct (negb (isValid color)); destruct e; try discriminate He; reflexivity.
Qed.

Lemma getStylesheet_state (w : World) (f : string) (font : QFont) (s : State) :
  (getStylesheet w f font s).2 = s
  \/ (getStylesheet w f font s).2
     = set_stylesheetsCache
         (<[(getThemeFolder w +:+ f, font) := (resolve w f font s).1]> (stylesheetsCache s))
         (resolve w f font s).2.
Proof.
  destruct (stylesheetsCache s !! (getThemeFolder w +:+ f, font)) as [v|] eqn:E.
  - left. rewrite (getStylesheet_hit _ _ _ _ _ E). reflexivity.
  - right. rewrite (getStylesheet_miss _ _ _ _ E). reflexivity.
Qed.

Lemma exec_palette (w : World) (c : Call) (s : State) :
  palette (exec w c s) = palette s
  \/ exists color s0, palette s0 = palette s
                      /\ palette (exec w c s) = palette (setThemeColor color s0).
Proof.
  destruct c as [f font|f font|f|i|color]; simpl.
  - left. destruct (getStylesheet_state w f font s) as [-> | ->]; [reflexivity|].
    destruct (resolve_frame w f font s) as (Hp & _). exact Hp.
  - left. destruct (resolve_frame w f font s) as (Hp & _). exact Hp.
  - left. destruct (getImagePath_frame w f s) as (Hp & _). exact Hp.
  - right. unfold setThemeColor_int.
    destruct (_ || _)%bool;
      [exists Color.invalid | exists (nth (Z.to_nat i) themeColorColors Color.invalid)];
      exists (set_stylesheetsCache ∅ s); split; reflexivity.
  - right. exists color, s. split; reflexivity.
Qed.

Lemma exec_static (w : World) (c : Call) (e : ColorPalette) (s : State) :
  is_accent e = false -> getColor e (exec w c s) = getColor e s.
Proof.
  intros He. unfold getColor.
  destruct (exec_palette w c s) as [-> | (color & s0 & H0 & ->)]; [reflexivity|].
  rewrite <- H0. exact (setThemeColor_static e color s0 He).
Qed.

Lemma run_static (calls : list (World * Call)) (e : ColorPalette) (s : State) :
  is_accent e = false -> getColor e (run calls s) = getColor e s.
Proof.
  intros He. revert s. induction calls as [|[w c] cs IH]; intros s; [reflexivity|].
  simpl. rewrite IH. apply exec_static, He.
Qed.

(** The ten static colours are never written: after any run every entry of
    the palette other than the four accent slots holds the colour it had
    before, so from the initial state it holds the colour of the
    initializer of [palette]. *)
Theorem static_colours_kept (calls : list (World * Call)) (e : ColorPalette) (s : State) :
  is_accent e = false ->
  getColor e (run calls s) = getColor e s
  /\ getColor e (run calls initial) = nth (ColorPalette_index e) palette_init Color.invalid.
Proof.
  intros He. split; [apply run_static, He|].
  rewrite (run_static calls e initial He). reflexivity.
Qed.

(** Resetting restores the palette of the start: after any run from the
    initial state, [setThemeColor] with the invalid colour, and
    [setThemeColor(int)] with index 0 or an index out of range, leave every
    entry of the palette, accent or not, with the colour of the initializer
    of [palette]. *)
Theorem reset_restores_initial_palette (calls : list (World * Call)) (i : Z) (e : ColorPalette) :
  (i <= 0 \/ Z.of_nat (length themeColorColors) <= i)%Z ->
  getColor e (setThemeColor Color.invalid (run calls initial)) = getColor e initial
  /\ getColor e (setThemeColor_int i (run calls initial)) = getColor e initial.
Proof.
  intros Hi.
  assert (A : forall s0, getColor e s0 = getColor e (run calls initial) ->
              getColor e (setThemeColor Color.invalid s0) = getColor e initial).
  { intros s0 H0. destruct (is_accent e) eqn:He.
    - unfold getColor, setThemeColor. destruct e; try discriminate He; reflexivity.
    - rewrite (setThemeColor_static e _ s0 He), H0. apply run_static, He. }
  split; [apply A; reflexivity|].
  unfold setThemeColor_int.
  destruct ((i <? 0) || (i >=? Z.of_nat (length themeColorColors)))%Z eqn:B.
  - apply A. reflexivity.
  - assert (i = 0)%Z as ->.
    { apply orb_false_iff in B as [B1 B2].
      apply Z.ltb_ge in B1. rewrite Z.geb_leb in B2. apply Z.leb_gt in B2. lia. }
    apply A. reflexivity.
Qed.

(** ** The dictionary along a run *)

Lemma setThemeColor_in_step (color : QColor) (s : State) :
  accents_in_step (setThemeColor color s).
Proof.
  unfold accents_in_step. rewrite setThemeColor_dict.
  generalize (Color.name (getColor ThemeDark (setThemeColor color s))) as a.
  generalize (Color.name (getColor ThemeMediumDark (setThemeColor color s))) as b.
  generalize (Color.name (getColor ThemeMedium (setThemeColor color s))) as c.
  generalize (Color.name (getColor ThemeLight (setThemeColor color s))) as d.
  intros d c b a. repeat split.
  - rewrite !QMap_value_insert_ne by discriminate. apply QMap_value_insert_eq.
  - rewrite !QMap_value_insert_ne by discriminate. apply QMap_value_insert_eq.
  - rewrite !QMap_value_insert_ne by discriminate. apply QMap_value_insert_eq.
  - apply QMap_value_insert_eq.
Qed.

Lemma resolve_in_step (w : World) (f : string) (font : QFont) (s : State) :
  dict s = [] \/ accents_in_step s ->
  dict (resolve w f font s).2 = [] \/ accents_in_step (resolve w f font s).2.
Proof.
  intros H. unfold accents_in_step, getColor.
  destruct (resolve_frame w f font s) as (Hp & [Hd|[He Hd]] & _); rewrite Hp, Hd.
  - exact H.
  - right. apply dict_init_accents.
Qed.

Lemma exec_in_step (w : World) (c : Call) (s : State) :
  dict s = [] \/ accents_in_step s ->
  dict (exec w c s) = [] \/ accents_in_step (exec w c s).
Proof.
  intros H. destruct c as [f font|f font|f|i|color]; simpl.
  - destruct (getStylesheet_state w f font s) as [-> | ->]; [exact H|].
    exact (resolve_in_step w f font s H).
  - exact (resolve_in_step w f font s H).
  - unfold accents_in_step, getColor.
    destruct (getImagePath_frame w f s) as (-> & -> & _). exact H.
  - right. unfold setThemeColor_int. destruct (_ || _)%bool; apply setThemeColor_in_step.
  - right. apply setThemeColor_in_step.
Qed.

(** In every state that a run reaches from the initial one, the dictionary
    is empty or its four accent entries are the names of the four accent
    colours that the palette holds at that moment: the two never drift
    apart, whichever overload recolours and whenever the dictionary was
    built. *)
Theorem accents_never_stale (calls : list (World * Call)) :
  let s := run calls initial in
  dict s = []
  \/ QMap.value "@themeDark" (dict s) = Color.name (getColor ThemeDark s)
     /\ QMap.value "@themeMediumDark" (dict s) = Color.name (getColor ThemeMediumDark s)
     /\ QMap.value "@themeMedium" (dict s) = Color.name (getColor ThemeMedium s)
     /\ QMap.value "@themeLight" (dict s) = Color.name (getColor ThemeLight s).
Proof.
  assert (G : forall s0, dict s0 = [] \/ accents_in_step s0 ->
                         dict (run calls s0) = [] \/ accents_in_step (run calls s0)).
  { induction calls as [|[w c] cs IH]; intros s0 H; [exact H|].
    simpl. apply IH, exec_in_step, H. }
  apply G. left. reflexivity.
Qed.

Lemma setThemeColor_keys (color : QColor) (s : State) :
  QMap.keys (dict (setThemeColor color s))
  = insert_key "@themeLight" (insert_key "@themeMedium"
      (insert_key "@themeMediumDark" (insert_key "@themeDark" (QMap.keys (dict s))))).
Proof. rewrite setThemeColor_dict, !QMap_insert_keys_eq. reflexivity. Qed.

Lemma resolve_dict (w : World) (f : string) (font : QFont) (s : State) :
  dict (resolve w f font s).2 = dict s
  \/ dict s = [] /\ dict (resolve w f font s).2 = dict_init font s.
Proof. destruct (resolve_frame w f font s) as (_ & H & _). exact H. Qed.

Lemma exec_dict (w : World) (c : Call) (s : State) :
  dict (exec w c s) = dict s
  \/ (exists font, dict s = [] /\ dict (exec w c s) = dict_init font s)
  \/ (exists color s0, dict s0 = dict s /\ dict (exec w c s) = dict (setThemeColor color s0)).
Proof.
  destruct c as [f font|f font|f|i|color]; simpl.
  - destruct (getStylesheet_state w f font s) as [-> | ->]; [left; reflexivity|].
    destruct (resolve_dict w f font s) as [H|H]; [left; exact H | right; left; eauto].
  - destruct (resolve_dict w f font s) as [H|H]; [left; exact H | right; left; eauto].
  - left. destruct (getImagePath_frame w f s) as (_ & Hd & _). exact Hd.
  - right. right. unfold setThemeColor_int.
    destruct (_ || _)%bool;
      [exists Color.invalid | exists (nth (Z.to_nat i) themeColorColors Color.invalid)];
      exists (set_stylesheetsCache ∅ s); split; reflexivity.
  - right. right. exists color, s. split; reflexivity.
Qed.

Lemma exec_keys_shape (w : World) (c : Call) (s : State) :
  keys_shape s -> keys_shape (exec w c s).
Proof.
  intros H. unfold keys_shape.
  destruct (exec_dict w c s) as [-> | [(font & _ & ->) | (color & s0 & H0 & ->)]].
  - exact H.
  - right. right. apply dict_init_keys_sorted.
  - rewrite setThemeColor_keys, H0.
    destruct H as [-> | [-> | ->]]; [right; left | right; left | right; right]; reflexivity.
Qed.

Lemma exec_keys_full (w : World) (c : Call) (s : State) :
  QMap.keys (dict s) = sorted_tokens -> QMap.keys (dict (exec w c s)) = sorted_tokens.
Proof.
  intros H.
  destruct (exec_dict w c s) as [-> | [(font & _ & ->) | (color & s0 & H0 & ->)]].
  - exact H.
  - apply dict_init_keys_sorted.
  - rewrite setThemeColor_keys, H0, H. reflexivity.
Qed.

(** The placeholder dictionary has one of three key sets in every state
    that a run reaches from the initial one: none, the four accent tokens,
    or all twenty-two tokens (in ascending order, as [QMap::keys()] lists
    them).  Once it holds all tokens it holds all tokens after every
    further call: no call removes a key, and recolouring adds none. *)
Theorem dictionary_key_sets (calls : list (World * Call)) (s : State) :
  (QMap.keys (dict (run calls initial)) = []
   \/ QMap.keys (dict (run calls initial)) = accent_tokens
   \/ QMap.keys (dict (run calls initial)) = sorted_tokens)
  /\ (QMap.keys (dict s) = sorted_tokens ->
      QMap.keys (dict (run calls s)) = sorted_tokens).
Proof.
  split.
  - assert (G : forall s0, keys_shape s0 -> keys_shape (run calls s0)).
    { induction calls as [|[w c] cs IH]; intros s0 H; [exact H|].
      simpl. apply IH, exec_keys_shape, H. }
    apply (G initial). left. reflexivity.
  - revert s. induction calls as [|[w c] cs IH]; intros s H; [exact H|].
    simpl. apply IH, exec_keys_full, H.
Qed.

Lemma exec_dict_nonempty (w : World) (c : Call) (s : State) :
  dict s <> [] -> dict (exec w c s) <> [].
Proof.
  intros H.
  destruct (exec_dict w c s) as [-> | [(font & E & _) | (color & s0 & H0 & ->)]].
  - exact H.
  - contradiction.
  - rewrite setThemeColor_dict. apply QMap_insert_nonempty.
Qed.

Lemma exec_dict_frozen (w : World) (c : Call) (s : State) (k : string) :
  dict s <> [] -> ~ In k accent_tokens ->
  QMap.value k (dict (exec w c s)) = QMap.value k (dict s).
Proof.
  intros H Hk.
  destruct (exec_dict w c s) as [-> | [(font & E & _) | (color & s0 & H0 & ->)]].
  - reflexivity.
  - contradiction.
  - rewrite setThemeColor_dict, <- H0. simpl in Hk.
    rewrite !QMap_value_insert_ne by (intros ->; tauto). reflexivity.
Qed.

Lemma resolve_font_irrelevant (w : World) (f : string) (font1 font2 : QFont) (s : State) :
  dict s <> [] -> resolve w f font1 s = resolve w f font2 s.
Proof.
  intros H.
  assert (E : forall fp qss s0, dict s0 = dict s ->
              resolveText w fp qss font1 s0 = resolveText w fp qss font2 s0).
  { intros fp qss s0 H0. unfold resolveText. rewrite H0.
    destruct (dict s); [contradiction|]. reflexivity. }
  unfold resolve. destruct (open_text w _); [apply E; reflexivity|].
  destruct (open_text w BuiltinThemePath); [apply E; reflexivity|reflexivity].
Qed.

(** Once the dictionary is not empty, its entries for every token other
    than the four accent tokens keep their text through all further calls,
    and [resolve] no longer reads its [baseFont] argument: [@baseFont] and
    the font tokens stay what the first dictionary-building call made them,
    and resolving one template for two base fonts gives the same text and
    state. *)
Theorem dictionary_frozen (calls : list (World * Call)) (s : State) :
  dict s <> [] ->
  (forall k, ~ In k accent_tokens ->
     QMap.value k (dict (run calls s)) = QMap.value k (dict s))
  /\ (forall w f font1 font2,
        resolve w f font1 (run calls s) = resolve w f font2 (run calls s)).
Proof.
  intros H.
  assert (G : forall s0, dict s0 <> [] ->
              dict (run calls s0) <> []
              /\ forall k, ~ In k accent_tokens ->
                   QMap.value k (dict (run calls s0)) = QMap.value k (dict s0)).
  { induction calls as [|[w c] cs IH]; intros s0 H0; [split; auto|].
    simpl. destruct (IH _ (exec_dict_nonempty w c s0 H0)) as (N & F).
    split; [exact N|]. intros k Hk. rewrite (F k Hk).
    apply exec_dict_frozen; assumption. }
  destruct (G s H) as (N & F). split; [exact F|].
  intros w f font1 font2. apply resolve_font_irrelevant, N.
Qed.

(** ** The image cache and the warnings along a run *)

Lemma resolveImage_grows (w : World) (fullPath : string) (acc : string * State) (phrase : string) :
  existingImagesCache acc.2 `prefix_of` existingImagesCache (resolveImage w fullPath acc phrase).2
  /\ warnings acc.2 `prefix_of` warnings (resolveImage w fullPath acc phrase).2.
Proof.
  destruct acc as [qss s]. unfold resolveImage.
  destruct (decide _); [|destruct (file_exists w _)]; simpl;
    split; try reflexivity; apply prefix_app_r; reflexivity.
Qed.

Lemma resolveImages_grow (w : World) (fullPath : string) (phrases : list string) (acc : string * State) :
  existingImagesCache acc.2
    `prefix_of` existingImagesCache (fold_left (resolveImage w fullPath) phrases acc).2
  /\ warnings acc.2 `prefix_of` warnings (fold_left (resolveImage w fullPath) phrases acc).2.
Proof.
  revert acc. induction phrases as [|p ps IH]; intros acc; simpl; [split; reflexivity|].
  destruct (IH (resolveImage w fullPath acc p)) as (H1 & H2).
  destruct (resolveImage_grows w fullPath acc p) as (H3 & H4).
  split; etrans; eassumption.
Qed.

Lemma resolveText_grows (w : World) (fullPath qss : string) (font : QFont) (s : State) :
  existingImagesCache s `prefix_of` existingImagesCache (resolveText w fullPath qss font s).2
  /\ warnings s `prefix_of` warnings (resolveText w fullPath qss font s).2.
Proof.
  unfold resolveText.
  match goal with |- context [fold_left ?f ?l ?a] =>
    destruct (resolveImages_grow w fullPath l a) as (H1 & H2) end.
  destruct (QMap.isEmpty (dict s)); simpl in *; auto.
Qed.

Lemma resolve_grows (w : World) (f : string) (font : QFont) (s : State) :
  existingImagesCache s `prefix_of` existingImagesCache (resolve w f font s).2
  /\ warnings s `prefix_of` warnings (resolve w f font s).2.
Proof.
  unfold resolve. destruct (open_text w _); [apply resolveText_grows|].
  destruct (open_text w BuiltinThemePath).
  - destruct (resolveText_grows w BuiltinThemePath s0 font
                (qWarning (FailedToOpenFile (getThemeFolder w +:+ f)) s)) as (H1 & H2).
    split; [exact H1|]. etrans; [|exact H2]. simpl. apply prefix_app_r. reflexivity.
  - simpl. split; [reflexivity|].
    rewrite <- app_assoc. apply prefix_app_r. reflexivity.
Qed.

Lemma getImagePath_grows (w : World) (f : string) (s : State) :
  existingImagesCache s `prefix_of` existingImagesCache (getImagePath w f s).2
  /\ warnings s `prefix_of` warnings (getImagePath w f s).2.
Proof.
  unfold getImagePath. destruct (decide _); [split; reflexivity|].
  destruct (file_exists w _); [simpl; split; [apply prefix_app_r|]; reflexivity|].
  destruct (file_exists w _); simpl; split; try reflexivity.
  - apply prefix_app_r. reflexivity.
  - rewrite <- app_assoc. apply prefix_app_r. reflexivity.
Qed.

Lemma exec_grows (w : World) (c : Call) (s : State) :
  existingImagesCache s `prefix_of` existingImagesCache (exec w c s)
  /\ warnings s `prefix_of` warnings (exec w c s).
Proof.
  destruct c as [f font|f font|f|i|color]; simpl.
  - destruct (getStylesheet_state w f font s) as [-> | ->]; [split; reflexivity|].
    apply resolve_grows.
  - apply resolve_grows.
  - apply getImagePath_grows.
  - unfold setThemeColor_int. destruct (_ || _)%bool; split; reflexivity.
  - split; reflexivity.
Qed.

Lemma image_cache_grows (calls : list (World * Call)) (s : State) :
  existingImagesCache s `prefix_of` existingImagesCache (run calls s).
Proof.
  revert s. induction calls as [|[w c] cs IH]; intros s; [reflexivity|].
  simpl. etrans; [|apply IH]. apply exec_grows.
Qed.

(** The existence cache and the warnings only grow at their end: after any
    run, the list of cached image paths and the list of warnings begin with
    what they were before.  No call removes, reorders or rewrites an entry
    of either. *)
Theorem image_cache_and_warnings_grow (calls : list (World * Call)) (s : State) :
  existingImagesCache s `prefix_of` existingImagesCache (run calls s)
  /\ warnings s `prefix_of` warnings (run calls s).
Proof.
  revert s. induction calls as [|[w c] cs IH]; intros s; [split; reflexivity|].
  simpl. destruct (IH (exec w c s)) as (H1 & H2).
  destruct (exec_grows w c s) as (H3 & H4).
  split; etrans; eassumption.
Qed.

Lemma exec_cache_exists (w : World) (c : Call) (s : State) :
  Forall (fun p => file_exists w p = true) (existingImagesCache s) ->
  Forall (fun p => file_exists w p = true) (existingImagesCache (exec w c s)).
Proof.
  intros H.
  assert (I : forall fp phrases acc,
            Forall (fun p => file_exists w p = true) (existingImagesCache acc.2) ->
            Forall (fun p => file_exists w p = true)
                   (existingImagesCache (fold_left (resolveImage w fp) phrases acc).2)).
  { intros fp phrases. induction phrases as [|p ps IH]; intros acc Hacc; [exact Hacc|].
    simpl. apply IH. destruct acc as [qss s0]. unfold resolveImage.
    destruct (decide _); [exact Hacc|].
    destruct (file_exists w _) eqn:E; simpl; [|exact Hacc].
    apply Forall_app. split; [exact Hacc|]. apply Forall_singleton. exact E. }
  assert (T : forall fp qss font s0,
            Forall (fun p => file_exists w p = true) (existingImagesCache s0) ->
            Forall (fun p => file_exists w p = true)
                   (existingImagesCache (resolveText w fp qss font s0).2)).
  { intros fp qss font s0 H0. unfold resolveText. apply I.
    destruct (QMap.isEmpty (dict s0)); exact H0. }
  assert (R : forall f font,
            Forall (fun p => file_exists w p = true)
                   (existingImagesCache (resolve w f font s).2)).
  { intros f font. unfold resolve. destruct (open_text w _); [apply T, H|].
    destruct (open_text w BuiltinThemePath); [apply T, H|exact H]. }
  destruct c as [f font|f font|f|i|color]; simpl.
  - destruct (getStylesheet_state w f font s) as [-> | ->]; [exact H|apply R].
  - apply R.
  - unfold getImagePath. destruct (decide _); [exact H|].
    destruct (file_exists w (getThemeFolder w +:+ f)) eqn:E; simpl.
    + apply Forall_app. split; [exact H|]. apply Forall_singleton. exact E.
    + destruct (file_exists w (BuiltinThemePath +:+ f)); exact H.
  - unfold setThemeColor_int. destruct (_ || _)%bool; exact H.
  - exact H.
Qed.

(** While the file system does not change, every path in the existence
    cache exists, and [getImagePath] then decides by the files alone: for a
    file that is missing from the theme folder it returns the built-in path
    when that exists, leaving the cache as it is, and the empty string when
    it does not. *)
Theorem static_file_system (w : World) (calls : list Call) (filename : string) :
  let s := run (map (fun c => (w, c)) calls) initial in
  Forall (fun p => file_exists w p = true) (existingImagesCache s)
  /\ (file_exists w (getThemeFolder w +:+ filename) = false ->
      (file_exists w (BuiltinThemePath +:+ filename) = true ->
       (getImagePath w filename s).1 = BuiltinThemePath +:+ filename
       /\ existingImagesCache (getImagePath w filename s).2 = existingImagesCache s)
      /\ (file_exists w (BuiltinThemePath +:+ filename) = false ->
          (getImagePath w filename s).1 = EmptyString
          /\ existingImagesCache (getImagePath w filename s).2 = existingImagesCache s)).
Proof.
  intros s.
  assert (G : forall s0, Forall (fun p => file_exists w p = true) (existingImagesCache s0) ->
              Forall (fun p => file_exists w p = true)
                     (existingImagesCache (run (map (fun c => (w, c)) calls) s0))).
  { induction calls as [|c cs IH]; intros s0 H0; [exact H0|].
    simpl. apply IH, exec_cache_exists, H0. }
  assert (F : Forall (fun p => file_exists w p = true) (existingImagesCache s))
    by (apply G; constructor).
  split; [exact F|]. intros Hex.
  assert (N : getThemeFolder w +:+ filename ∉ existingImagesCache s).
  { intros Hin. rewrite Forall_forall in F. rewrite (F _ Hin) in Hex. discriminate. }
  unfold getImagePath. destruct (decide _); [contradiction|]. rewrite Hex.
  split; intros ->; simpl; auto.
Qed.

(** An image that [getImagePath] has found in the theme folder is answered
    from the existence cache ever after: whatever calls follow and whatever
    the file system becomes, a later [getImagePath] for the same name under
    the same theme folder returns the same path and changes nothing (no
    file-system check, no warning), even if the file is gone. *)
Theorem image_found_once (w w' : World) (filename : string) (s : State)
    (calls : list (World * Call)) :
  file_exists w (getThemeFolder w +:+ filename) = true ->
  getThemeFolder w' = getThemeFolder w ->
  let s1 := run calls (getImagePath w filename s).2 in
  getImagePath w' filename s1 = (getThemeFolder w +:+ filename, s1).
Proof.
  intros Hex Hw s1.
  assert (H0 : getThemeFolder w +:+ filename
               ∈ existingImagesCache (getImagePath w filename s).2).
  { unfold getImagePath. destruct (decide _); [assumption|]. rewrite Hex. simpl.
    apply elem_of_app. right. apply list_elem_of_singleton. reflexivity. }
  assert (H1 : getThemeFolder w +:+ filename ∈ existingImagesCache s1).
  { destruct (image_cache_grows calls (getImagePath w filename s).2) as [k Hk].
    subst s1. rewrite Hk. apply elem_of_app. left. exact H0. }
  unfold getImagePath. rewrite Hw. destruct (decide _); [reflexivity|contradiction].
Qed.

(** After [setThemeColor(int)] the next [getStylesheet] resolves anew,
    whatever was cached before: it returns what [resolve] returns in the
    recoloured state, and that text is then the only entry of the cache. *)
Theorem recolour_by_index_resolves_again (i : Z) (w : World) (filename : string)
    (baseFont : QFont) (s : State) :
  let s' := setThemeColor_int i s in
  (getStylesheet w filename baseFont s').1 = (resolve w filename baseFont s').1
  /\ stylesheetsCache (getStylesheet w filename baseFont s').2
     = {[ (getThemeFolder w +:+ filename, baseFont) := (resolve w filename baseFont s').1 ]}.
Proof.
  intros s'.
  assert (E : stylesheetsCache s' = ∅) by apply setThemeColor_int_clears.
  assert (M : stylesheetsCache s' !! (getThemeFolder w +:+ filename, baseFont) = None)
    by (rewrite E; apply lookup_empty).
  rewrite (getStylesheet_miss w filename baseFont s' M). simpl. rewrite E.
  split; [reflexivity|]. apply insert_empty.
Qed.

(** ** Tokens and word boundaries *)

Lemma prefix_append (k rest : string) : String.prefix k (k +:+ rest) = true.
Proof.
  induction k as [|a k IH]; simpl; [destruct rest; reflexivity|].
  destruct (ascii_dec a a); [exact IH|contradiction].
Qed.

Lemma drop_append (k rest : string) : QString.drop (String.length k) (k +:+ rest) = rest.
Proof. induction k as [|a k IH]; simpl; [destruct rest; reflexivity|exact IH]. Qed.

(** For each of the twenty-two tokens, the pattern of the token pass
    matches at an occurrence of the token name exactly when what follows is
    not a letter, a digit or an underscore (or is the end of the text). *)
Theorem token_needs_boundary (key rest : string) :
  In key tokens ->
  QString.token_at key (key +:+ rest)
  = negb (QString.is_word_opt (QString.head rest)).
Proof.
  intros Hin. unfold QString.token_at. rewrite prefix_append, drop_append.
  assert (L : QString.is_word_opt (QString.last key) = true).
  { simpl in Hin. repeat (destruct Hin as [<-|Hin]; [reflexivity|]). destruct Hin. }
  rewrite L. reflexivity.
Qed.

Lemma tokens_apart :
  forallb (fun k1 => forallb (fun k2 => String.eqb k1 k2 || negb (QString.token_occurs k1 k2))
                       tokens) tokens = true.
Proof. vm_compute. reflexivity. Qed.

(** No token matches inside the name of another token, so replacing one
    token never rewrites an occurrence of another one ([@medium] does not
    touch [@mediumBold], nor [@big] [@bigBold]): the text of another token
    comes out of [replace_token] as it went in. *)
Theorem tokens_do_not_overlap (k1 k2 after : string) :
  In k1 tokens -> In k2 tokens -> k1 <> k2 ->
  QString.token_occurs k1 k2 = false
  /\ QString.replace_token k1 after k2 = k2.
Proof.
  intros H1 H2 Hne.
  assert (E : QString.token_occurs k1 k2 = false).
  { pose proof tokens_apart as T. rewrite forallb_forall in T.
    specialize (T k1 H1). rewrite forallb_forall in T. specialize (T k2 H2).
    apply orb_true_iff in T as [T|T].
    - apply String.eqb_eq in T. contradiction.
    - apply negb_true_iff in T. exact T. }
  split; [exact E|]. apply replace_token_absent, E.
Qed.

(** ** Image references *)

Lemma span_arg_of_arg (arg rest : string) :
  image_arg arg = true ->
  QString.span_arg (arg +:+ String ")" rest) = (arg, String ")" rest).
Proof.
  induction arg as [|c r IH]; intros Harg; [reflexivity|].
  simpl in Harg. apply andb_true_iff in Harg as [Hc Hr].
  apply negb_true_iff in Hc. simpl. rewrite Hc, (IH Hr). reflexivity.
Qed.

Lemma chop1_append (arg : string) : QString.chop1 (arg +:+ ")") = arg.
Proof.
  induction arg as [|c r IH]; [reflexivity|].
  simpl. rewrite IH. destruct r; reflexivity.
Qed.

Lemma prefix_before_rparen (p a : string) :
  no_rparen p = true -> p <> EmptyString ->
  String.prefix p (a +:+ ")") = true -> String.prefix p a = true.
Proof.
  revert a. induction p as [|x p IH]; intros a Hp Hne Hpre; [contradiction|].
  simpl in Hp. apply andb_true_iff in Hp as [Hx Hp].
  destruct a as [|c r]; simpl in *.
  - destruct (ascii_dec x ")") as [->|_]; [discriminate Hx|discriminate Hpre].
  - destruct (ascii_dec x c); [|discriminate].
    destruct p as [|y p]; [destruct r; reflexivity|].
    apply IH; [exact Hp|discriminate|exact Hpre].
Qed.

Lemma occurs_before_rparen (p a : string) :
  no_rparen p = true -> p <> EmptyString -> occurs p a = false ->
  forall n, String.prefix p (QString.drop n (a +:+ ")")) = false.
Proof.
  intros Hp Hne. induction a as [|c r IH]; intros Hocc n.
  - assert (E : String.prefix p EmptyString = false) by (destruct p; [contradiction|reflexivity]).
    assert (E' : String.prefix p ")" = false).
    { destruct (String.prefix p ")") eqn:B; [|reflexivity].
      rewrite (prefix_before_rparen p EmptyString Hp Hne B) in E. discriminate. }
    destruct n as [|[|n]]; simpl; assumption.
  - change (occurs p (String c r))
      with (String.prefix p (String c r) || occurs p r) in Hocc.
    apply orb_false_iff in Hocc as [Hhd Htl].
    destruct n as [|n]; [|exact (IH Htl n)].
    change (QString.drop 0 (String c r +:+ ")")) with (String c r +:+ ")").
    destruct (String.prefix p (String c r +:+ ")")) eqn:B; [|reflexivity].
    rewrite (prefix_before_rparen p (String c r) Hp Hne B) in Hhd. discriminate.
Qed.

Lemma replace_hits_skip (hit : string -> bool) (len : nat) (after pre t : string) :
  QString.replace_hits hit len after (String.length pre) (pre +:+ t)
  = QString.replace_hits hit len after 0 t.
Proof.
  induction pre as [|c r IH]; [destruct t; reflexivity|]. simpl. exact IH.
Qed.

Lemma remove_leading_prefix (t : string) :
  QString.remove QString.imagePrefix (QString.imagePrefix +:+ t)
  = QString.remove QString.imagePrefix t.
Proof.
  unfold QString.remove, QString.replace.
  change (QString.imagePrefix +:+ t) with (String "@" ("getImagePath(" +:+ t)).
  cbn [QString.replace_hits].
  change (String "@" ("getImagePath(" +:+ t)) with (QString.imagePrefix +:+ t).
  rewrite prefix_append.
  exact (replace_hits_skip _ _ _ "getImagePath(" t).
Qed.

Lemma remove_prefix_of_phrase (arg : string) :
  occurs QString.imagePrefix arg = false ->
  QString.remove QString.imagePrefix (arg +:+ ")") = arg +:+ ")".
Proof.
  intros Hocc. unfold QString.remove, QString.replace.
  apply replace_hits_no_hit, occurs_before_rparen; [reflexivity|discriminate|exact Hocc].
Qed.

(** A reference [@getImagePath(arg)] whose argument has no closing
    parenthesis, no white space and no [@getImagePath(] inside is matched
    by the image pattern as a whole, wherever the text goes on with, and
    the path that [resolve] extracts from the match is the argument. *)
Theorem image_reference_round_trip (arg rest : string) :
  image_arg arg = true ->
  occurs QString.imagePrefix arg = false ->
  let phrase := QString.imagePrefix +:+ arg +:+ ")" in
  QString.image_at (QString.imagePrefix +:+ arg +:+ ")" +:+ rest) = Some phrase
  /\ QString.chop1 (QString.remove QString.imagePrefix phrase) = arg.
Proof.
  intros Harg Hocc phrase. split.
  - unfold QString.image_at.
    rewrite prefix_append, drop_append.
    change (arg +:+ ")" +:+ rest) with (arg +:+ String ")" rest).
    rewrite (span_arg_of_arg arg rest Harg). reflexivity.
  - subst phrase.
    rewrite remove_leading_prefix, (remove_prefix_of_phrase arg Hocc).
    apply chop1_append.
Qed.

(** [path.remove("@getImagePath(")] deletes every occurrence: a reference
    whose argument itself begins with [@getImagePath(] is matched as a
    whole, but the path extracted from it lacks both prefixes, so the file
    looked up is not the argument that was written. *)
Theorem image_reference_nested_prefix (arg rest : string) :
  image_arg arg = true ->
  occurs QString.imagePrefix arg = false ->
  let phrase := QString.imagePrefix +:+ QString.imagePrefix +:+ arg +:+ ")" in
  QString.image_at (QString.imagePrefix +:+ QString.imagePrefix +:+ arg +:+ ")" +:+ rest)
  = Some phrase
  /\ QString.chop1 (QString.remove QString.imagePrefix phrase) = arg
  /\ QString.chop1 (QString.remove QString.imagePrefix phrase)
     <> (QString.imagePrefix +:+ arg).
Proof.
  intros Harg Hocc phrase.
  assert (E : QString.chop1 (QString.remove QString.imagePrefix phrase) = arg).
  { subst phrase.
    rewrite !remove_leading_prefix, (remove_prefix_of_phrase arg Hocc).
    apply chop1_append. }
  split; [|split; [exact E|]].
  - unfold QString.image_at.
    rewrite prefix_append, drop_append.
    change (QString.imagePrefix +:+ arg +:+ ")" +:+ rest)
      with ((QString.imagePrefix +:+ arg) +:+ String ")" rest).
    rewrite span_arg_of_arg; [reflexivity|].
    simpl. exact Harg.
  - rewrite E. intros Habs.
    assert (L : String.length arg = String.length (QString.imagePrefix +:+ arg))
      by (rewrite <- Habs; reflexivity).
    unfold QString.imagePrefix in L. simpl in L.
    change (EmptyString +:+ arg) with arg in L. lia.
Qed.

(** ** Fonts, the built-in theme and the presets *)


(** Without a user theme the theme folder is the built-in theme, so the
    candidate and the fallback of [getImagePath] are one path: the result
    is that path or the empty string, and an image that is neither cached
    nor present gives the empty string and both warnings, for the same
    path. *)
Theorem builtin_theme_only (w : World) (filename : string) (s : State) :
  locate w (ThemeSubFolder +:+ getThemeName) = EmptyString ->
  getThemeFolder w = BuiltinThemePath
  /\ ((getImagePath w filename s).1 = BuiltinThemePath +:+ filename
      \/ (getImagePath w filename s).1 = EmptyString)
  /\ ((BuiltinThemePath +:+ filename) ∉ existingImagesCache s ->
      file_exists w (BuiltinThemePath +:+ filename) = false ->
      getImagePath w filename s
      = (EmptyString,
         mkState (palette s) (dict s) (stylesheetsCache s) (existingImagesCache s)
           (warnings s ++ [FailedToOpenFile (BuiltinThemePath +:+ filename);
                           FailedToOpenDefaultFile (BuiltinThemePath +:+ filename)]))).
Proof.
  intros Hloc.
  assert (E : getThemeFolder w = BuiltinThemePath)
    by (unfold getThemeFolder; rewrite Hloc; reflexivity).
  split; [exact E|]. unfold getImagePath. rewrite E. split.
  - destruct (decide _); [left; reflexivity|].
    destruct (file_exists w (BuiltinThemePath +:+ filename)); [left|right]; reflexivity.
  - intros Hnin Hex. destruct (decide _); [contradiction|]. rewrite Hex.
    unfold qWarning. simpl. rewrite <- app_assoc. reflexivity.
Qed.

(** Every index of a name that [getThemeColorNames] offers is in range for
    [setThemeColor(int)] and selects the preset at that index after the
    cache has been emptied; the preset is a valid colour for every name but
    the first, so only the first name, [Default], resets the accents. *)
Theorem theme_colour_names_select_presets (i : Z) (s : State) :
  (0 <= i < Z.of_nat (length getThemeColorNames))%Z ->
  length getThemeColorNames = length themeColorColors
  /\ setThemeColor_int i s
     = setThemeColor (nth (Z.to_nat i) themeColorColors Color.invalid)
         (set_stylesheetsCache ∅ s)
  /\ (isValid (nth (Z.to_nat i) themeColorColors Color.invalid) = false <-> i = 0%Z).
Proof.
  intros Hi. simpl in Hi. split; [reflexivity|]. split.
  - unfold setThemeColor_int.
    destruct ((i <? 0) || (i >=? Z.of_nat (length themeColorColors)))%Z eqn:B;
      [|reflexivity].
    apply orb_true_iff in B as [B|B];
      [apply Z.ltb_lt in B | apply Z.geb_le in B; simpl in B]; lia.
  - assert (C : (i = 0 \/ i = 1 \/ i = 2 \/ i = 3 \/ i = 4)%Z) by lia.
    destruct C as [C|[C|[C|[C|C]]]]; subst i; simpl; split; intros H;
      try reflexivity; try discriminate H.
Qed.

End MoreFacts.

(** ** Closed instances of the further properties *)

Module MoreScenarios.

Import Sample.

#[local] Existing Instance Sample.qt.

Lemma static_colours_kept_witness :
  is_accent Green = false
  /\ getColor Green (run busy initial) = Color.fromName "#6bc260".
Proof.
  split; [reflexivity|].
  exact (proj2 (static_colours_kept busy Green initial eq_refl)).
Defined.

Lemma reset_restores_initial_palette_witness :
  (7 <= 0 \/ Z.of_nat (length themeColorColors) <= 7)%Z
  /\ getColor ThemeDark (run busy initial) = Color.fromName "#002f69"
  /\ getColor ThemeDark (setThemeColor_int 7 (run busy initial)) = Color.fromName "#1c1c1c".
Proof.
  assert (H : (7 <= 0 \/ Z.of_nat (length themeColorColors) <= 7)%Z) by (simpl; lia).
  split; [exact H|]. split; [vm_compute; reflexivity|].
  exact (proj2 (reset_restores_initial_palette busy 7 ThemeDark H)).
Defined.

Lemma dictionary_key_sets_witness :
  let s := (resolve mainWorld "main.css" font initial).2 in
  QMap.keys (dict s) = sorted_tokens
  /\ QMap.keys (dict (run busy s)) = sorted_tokens.
Proof.
  intros s.
  assert (H : QMap.keys (dict s) = sorted_tokens) by (vm_compute; reflexivity).
  split; [exact H|]. exact (proj2 (dictionary_key_sets busy s) H).
Defined.

Lemma dictionary_frozen_witness :
  let s := (resolve mainWorld "main.css" font initial).2 in
  let big := mkFont "Serif" 30 Bold in
  dict s <> []
  /\ ~ In "@baseFont" accent_tokens
  /\ QMap.value "@baseFont" (dict (run busy s)) = "'Sans' 12px"
  /\ resolve mainWorld "main.css" big (run busy s)
     = resolve mainWorld "main.css" font (run busy s).
Proof.
  intros s big.
  assert (H : dict s <> []) by (vm_compute; discriminate).
  assert (N : ~ In "@baseFont" accent_tokens)
    by (simpl; intros [A|[A|[A|[A|[]]]]]; discriminate A).
  destruct (dictionary_frozen busy s H) as (F & R).
  split; [exact H|]. split; [exact N|]. split.
  - rewrite (F "@baseFont" N). vm_compute. reflexivity.
  - apply R.
Defined.

Lemma static_file_system_witness :
  let calls := [CallGetImagePath "a.png"; CallResolve "none.css" font] in
  let s := run (map (fun c => (builtinImageWorld, c)) calls) initial in
  file_exists builtinImageWorld (getThemeFolder builtinImageWorld +:+ "a.png") = false
  /\ file_exists builtinImageWorld (BuiltinThemePath +:+ "a.png") = true
  /\ (getImagePath builtinImageWorld "a.png" s).1 = ":themes/default/a.png".
Proof.
  intros calls s.
  split; [reflexivity|]. split; [reflexivity|].
  exact (proj1 (proj1 (proj2 (static_file_system builtinImageWorld calls "a.png") eq_refl)
                  eq_refl)).
Defined.

Lemma image_found_once_witness :
  let s1 := run busy (getImagePath imageWorld "a.png" initial).2 in
  file_exists imageWorld (getThemeFolder imageWorld +:+ "a.png") = true
  /\ getThemeFolder emptyWorld = getThemeFolder imageWorld
  /\ file_exists emptyWorld (getThemeFolder emptyWorld +:+ "a.png") = false
  /\ getImagePath emptyWorld "a.png" s1
     = ("/home/user/.local/share/qTox/themes/default/a.png", s1).
Proof.
  intros s1. split; [reflexivity|]. split; [reflexivity|]. split; [reflexivity|].
  exact (image_found_once imageWorld emptyWorld "a.png" initial busy eq_refl eq_refl).
Defined.

Lemma token_needs_boundary_witness :
  In "@medium" tokens
  /\ QString.token_at "@medium" "@mediumBold;" = false
  /\ QString.token_at "@medium" "@medium;" = true.
Proof.
  assert (H : In "@medium" tokens) by (simpl; tauto).
  split; [exact H|]. split.
  - exact (token_needs_boundary "@medium" "Bold;" H).
  - exact (token_needs_boundary "@medium" ";" H).
Defined.

Lemma tokens_do_not_overlap_witness :
  In "@big" tokens /\ In "@bigBold" tokens /\ "@big" <> "@bigBold"
  /\ QString.replace_token "@big" "600 13px" "@bigBold" = "@bigBold".
Proof.
  assert (H1 : In "@big" tokens) by (simpl; tauto).
  assert (H2 : In "@bigBold" tokens) by (simpl; tauto).
  assert (N : "@big" <> "@bigBold") by discriminate.
  split; [exact H1|]. split; [exact H2|]. split; [exact N|].
  exact (proj2 (tokens_do_not_overlap "@big" "@bigBold" "600 13px" H1 H2 N)).
Defined.

Lemma image_reference_round_trip_witness :
  image_arg "img/icon@2x.png" = true
  /\ occurs QString.imagePrefix "img/icon@2x.png" = false
  /\ QString.image_at "@getImagePath(img/icon@2x.png)); }"
     = Some "@getImagePath(img/icon@2x.png)"
  /\ QString.chop1 (QString.remove QString.imagePrefix "@getImagePath(img/icon@2x.png)")
     = "img/icon@2x.png".
Proof.
  split; [reflexivity|]. split; [reflexivity|].
  exact (image_reference_round_trip "img/icon@2x.png" "); }" eq_refl eq_refl).
Defined.

Lemma image_reference_nested_prefix_witness :
  image_arg "a.png" = true
  /\ occurs QString.imagePrefix "a.png" = false
  /\ QString.image_at "@getImagePath(@getImagePath(a.png) x"
     = Some "@getImagePath(@getImagePath(a.png)"
  /\ QString.chop1 (QString.remove QString.imagePrefix "@getImagePath(@getImagePath(a.png)")
     = "a.png".
Proof.
  split; [reflexivity|]. split; [reflexivity|].
  destruct (image_reference_nested_prefix "a.png" " x" eq_refl eq_refl) as (A & B & _).
  split; [exact A|exact B].
Defined.

Lemma builtin_theme_only_witness :
  let w := fs false [] in
  locate w (ThemeSubFolder +:+ getThemeName) = EmptyString
  /\ ((BuiltinThemePath +:+ "a.png") ∉ existingImagesCache initial)
  /\ file_exists w (BuiltinThemePath +:+ "a.png") = false
  /\ getThemeFolder w = ":themes/default/"
  /\ warnings (getImagePath w "a.png" initial).2
     = [FailedToOpenFile ":themes/default/a.png";
        FailedToOpenDefaultFile ":themes/default/a.png"].
Proof.
  intros w.
  assert (N : (BuiltinThemePath +:+ "a.png") ∉ existingImagesCache initial)
    by (vm_compute; inversion 1).
  destruct (builtin_theme_only w "a.png" initial eq_refl) as (E & _ & G).
  split; [reflexivity|]. split; [exact N|]. split; [reflexivity|]. split; [exact E|].
  rewrite (G N eq_refl). reflexivity.
Defined.

Lemma theme_colour_names_select_presets_witness :
  (0 <= 2 < Z.of_nat (length getThemeColorNames))%Z
  /\ setThemeColor_int 2 initial
     = setThemeColor (Color.fromName "#97ba00") (set_stylesheetsCache ∅ initial).
Proof.
  assert (H : (0 <= 2 < Z.of_nat (length getThemeColorNames))%Z) by (simpl; lia).
  split; [exact H|].
  exact (proj1 (proj2 (theme_colour_names_select_presets 2 initial H))).
Defined.

End MoreScenarios.
